(** * Site-oficial: the page script [main.js]

    A shallow embedding of the page script and the properties its
    specification states about it.

    The script is a set of reactions to browser events.  The browser is the
    host: its timers, its selector engine, its intersection observer and its
    scrolling primitives are modelled here by what the script relies on, and
    the script's own functions are translated line by line on top of them.

    - [Js]         completions (normal return or thrown exception) and the
                   monad of the script's functions
    - [EventLoop]  the host's timers: [setTimeout], [clearTimeout], firing
    - [Debounce], [Throttle]   the two rate-limiting wrappers
    - [Page]       the document, [safeSelect], the ready callback, the
                   listeners it adds and the functions attached to [window]
    - [Closest]    the [Element.prototype.closest] shim
    - [SmallHost]  a concrete host and a sample page to run the script on
    - [Quiet]      what the two wrappers let through, for any run of calls
    - [Ready]      [ready] and the [DOMContentLoaded] listeners
    - [Viewport]   the viewport height and its two listeners
    - [Links]      a click, bubbling from the node clicked to the document
    - [Restyle]    the scroll handler's body, node by node
    - [Support], [Shims], [Script]   [checkBrowserSupport], the two shims,
                   and the statements of the script in order
    - [Samples]    more of the sample page

    Time is in whole milliseconds and timers are ideal: a timer fires at
    its due time, and before a call made at or after that time; the delay of
    a timer is read as the host reads it, as a 32-bit signed integer.  The
    function handed to [debounce] acts on a state of its own and may throw;
    so does the one handed to [throttle], where [Throttle.reentrant] is the
    wrapper around a function that calls the wrapper it is wrapped in. *)

From Stdlib Require Import ZArith QArith Lia Ascii String.
From stdpp Require Import base option list strings gmap sorting.

Local Open Scope Z_scope.

(* ===================================================================== *)
(** ** JavaScript completions *)
(* ===================================================================== *)

Module Js.

(** The value of a thrown exception; only its message is kept. *)
Definition exn := string.

(** How a call ends: it returns a value or it throws. *)
Inductive completion (A : Type) : Type :=
| Normal (a : A)
| Throw (e : exn).
Arguments Normal {A} a.
Arguments Throw {A} e.

Definition throws {A} (c : completion A) : bool :=
  match c with Normal _ => false | Throw _ => true end.

(** [try { body } catch (e) { handler }] over a state [St]: the handler runs
    on the state the body left behind. *)
Definition try_catch {St A} (body : St -> St * completion A)
    (handler : exn -> St -> St * completion A) (s : St) : St * completion A :=
  match body s with
  | (s', Normal a) => (s', Normal a)
  | (s', Throw e) => handler e s'
  end.

(** The monad of the script's functions over a state [St]: state passing,
    with exceptions propagating. *)
Definition M (St A : Type) : Type := St -> St * completion A.

Definition ret {St A} (a : A) : M St A := fun s => (s, Normal a).

Definition bind {St A B} (m : M St A) (k : A -> M St B) : M St B :=
  fun s =>
    match m s with
    | (s', Normal a) => k a s'
    | (s', Throw e) => (s', Throw e)
    end.

(** A statement that cannot throw. *)
Definition lift {St} (f : St -> St) : M St unit := fun s => (f s, Normal tt).

(** A read of the state. *)
Definition gets {St A} (f : St -> A) : M St A := fun s => (s, Normal (f s)).

#[global] Instance M_ret {St} : MRet (M St) := fun A a => ret a.
#[global] Instance M_bind {St} : MBind (M St) := fun A B k m => bind m k.

End Js.
Import Js.

(* ===================================================================== *)
(** ** The host's timers *)
(* ===================================================================== *)

Module EventLoop.

(** The delay of [setTimeout] is a WebIDL [long]: the host converts it as
    ToInt32 does, modulo 2^32 into the range from -2^31 to 2^31 - 1. *)
Definition to_int32 (z : Z) : Z := (z + 2 ^ 31) mod 2 ^ 32 - 2 ^ 31.

(** The time the host waits for a delay: a negative one counts as 0.  A
    delay from 2^31 to 2^32 - 1 wraps to a negative one and is not waited
    for at all. *)
Definition timeout_of (delay : Z) : Z := Z.max 0 (to_int32 delay).

Arguments to_int32 : simpl never.
Arguments timeout_of : simpl never.

Section Timers.
(** [C] is the type of the callbacks handed to [setTimeout]; [X] is the
    rest of the program state (closure variables, user state). *)
Context {C X : Type}.

Record timer := { t_id : nat; t_due : Z; t_cb : C }.

(** The timer table: the next handle to give out and the armed timers in
    the order they were armed. *)
Record timers := { next_id : nat; pending : list timer }.

Record world := { clock : Z; queue : timers; state : X }.

Definition no_timers : timers := {| next_id := 1; pending := [] |}.

(** [setTimeout(cb, delay)] at time [now]: the timer is due [timeout_of
    delay] later.  Returns the handle. *)
Definition setTimeout (now : Z) (cb : C) (delay : Z) (q : timers)
  : nat * timers :=
  (next_id q,
   {| next_id := S (next_id q);
      pending := pending q
                 ++ [ {| t_id := next_id q;
                         t_due := now + timeout_of delay;
                         t_cb := cb |} ] |}).

(** [clearTimeout(h)]: [None] is [undefined]; a handle that is not armed
    (never given out, already fired) is ignored. *)
Definition clearTimeout (h : option nat) (q : timers) : timers :=
  match h with
  | None => q
  | Some i =>
      {| next_id := next_id q;
         pending := filter (fun x => t_id x ≠ i) (pending q) |}
  end.

(** The armed timer that fires first: least due time, and among equals the
    one armed first. *)
Fixpoint earliest (l : list timer) : option timer :=
  match l with
  | [] => None
  | x :: r =>
      match earliest r with
      | None => Some x
      | Some y => if t_due y <? t_due x then Some y else Some x
      end
  end.

Definition pop_due (t : Z) (q : timers) : option (timer * timers) :=
  match earliest (pending q) with
  | Some x =>
      if t_due x <=? t
      then Some (x, clearTimeout (Some (t_id x)) q)
      else None
  | None => None
  end.

(** What running a callback does to the world. *)
Variable fire : C -> world -> world.

(** Fire, in order, the timers due at or before [t].  A timer runs at its
    due time. *)
Fixpoint run_fuel (n : nat) (t : Z) (w : world) : world :=
  match n with
  | O => w
  | S n' =>
      match pop_due t (queue w) with
      | None => w
      | Some (x, q') =>
          run_fuel n' t
            (fire (t_cb x)
               {| clock := Z.max (clock w) (t_due x);
                  queue := q';
                  state := state w |})
      end
  end.

(** Let time pass until [t]. *)
Definition run_until (t : Z) (w : world) : world :=
  let w' := run_fuel (length (pending (queue w))) t w in
  {| clock := Z.max (clock w') t; queue := queue w'; state := state w' |}.

End Timers.

Arguments timer : clear implicits.
Arguments timers : clear implicits.
Arguments world : clear implicits.

End EventLoop.
Import EventLoop.

(* ===================================================================== *)
(** ** [debounce(func, wait)] *)
(* ===================================================================== *)

Module Debounce.

Section Debounce.
(** [func] acts on a state [S] of its own and may throw.  It is called as
    [func(...args)], with no receiver. *)
Context {Args S : Type}.
Variable func : Args -> S -> S * completion unit.
Variable wait : Z.

(** The arrow function [later] closes over the [args] of the call that
    created it. *)
Inductive callback := Later (args : Args).

(** [timeout] is the closure variable ([None] is [undefined]).
    [invocations] records every call of [func]: when, and with what. *)
Record closure := {
  timeout : option nat;
  user : S;
  invocations : list (Z * Args)
}.

Definition dworld := world callback closure.

(** [debounce] itself only creates the closure: [let timeout;]. *)
Definition debounce (t0 : Z) (s0 : S) : dworld :=
  {| clock := t0;
     queue := no_timers;
     state := {| timeout := None; user := s0; invocations := [] |} |}.

(** [later]: [clearTimeout(timeout); func(...args);].  It runs as a timer
    task, so what [func] throws goes to the host's error reporting and the
    loop goes on. *)
Definition later (args : Args) (w : dworld) : dworld :=
  let q1 := clearTimeout (timeout (state w)) (queue w) in
  let '(u, _) := func args (user (state w)) in
  {| clock := clock w;
     queue := q1;
     state := {| timeout := timeout (state w);
                 user := u;
                 invocations := invocations (state w) ++ [(clock w, args)] |} |}.

Definition fire (cb : callback) (w : dworld) : dworld :=
  match cb with Later args => later args w end.

(** [executedFunction(...args)]:
    [clearTimeout(timeout); timeout = setTimeout(later, wait);] *)
Definition executedFunction (args : Args) (w : dworld) : dworld :=
  let q1 := clearTimeout (timeout (state w)) (queue w) in
  let '(h, q2) := setTimeout (clock w) (Later args) wait q1 in
  {| clock := clock w;
     queue := q2;
     state := {| timeout := Some h;
                 user := user (state w);
                 invocations := invocations (state w) |} |}.

(** A call of the wrapper at time [t]: the timers due by then fire first. *)
Definition call_at (w : dworld) (c : Z * Args) : dworld :=
  executedFunction c.2 (run_until fire c.1 w).

Definition play (calls : list (Z * Args)) (w : dworld) : dworld :=
  foldl call_at w calls.

Definition calls_of (w : dworld) : list (Z * Args) := invocations (state w).


End Debounce.

End Debounce.

(* ===================================================================== *)
(** ** [throttle(func, limit)] *)
(* ===================================================================== *)

Module Throttle.

Section Throttle.
(** [func] is called as [func.apply(context, args)]. *)
Context {Ctx Args S : Type}.
Variable func : Ctx -> Args -> S -> S * completion unit.
Variable limit : Z.

(** The only timer callback: [() => (inThrottle = false)]. *)
Inductive callback := Reopen.

(** [inThrottle] is the closure variable; [undefined] and [false] are both
    [false] here, the code only tests [!inThrottle]. *)
Record closure := {
  inThrottle : bool;
  user : S;
  invocations : list (Z * Ctx * Args)
}.

Definition tworld := world callback closure.

Definition throttle (t0 : Z) (s0 : S) : tworld :=
  {| clock := t0;
     queue := no_timers;
     state := {| inThrottle := false; user := s0; invocations := [] |} |}.

Definition fire (cb : callback) (w : tworld) : tworld :=
  match cb with
  | Reopen =>
      {| clock := clock w;
         queue := queue w;
         state := {| inThrottle := false;
                     user := user (state w);
                     invocations := invocations (state w) |} |}
  end.

(** The wrapper:
    [if (!inThrottle) { func.apply(context, args); inThrottle = true;
                        setTimeout(() => (inThrottle = false), limit); }]
    When [func] throws, the two statements after it do not run and the
    exception leaves the wrapper. *)
Definition wrapper (context : Ctx) (args : Args) (w : tworld)
  : tworld * completion unit :=
  if inThrottle (state w) then (w, Normal tt)
  else
    let '(u, r) := func context args (user (state w)) in
    let log := invocations (state w) ++ [(clock w, context, args)] in
    match r with
    | Throw e =>
        ({| clock := clock w;
            queue := queue w;
            state := {| inThrottle := inThrottle (state w);
                        user := u;
                        invocations := log |} |},
         Throw e)
    | Normal _ =>
        let '(_, q) := setTimeout (clock w) Reopen limit (queue w) in
        ({| clock := clock w;
            queue := q;
            state := {| inThrottle := true; user := u; invocations := log |} |},
         Normal tt)
    end.

(** The same wrapper around a function that may call the wrapper it is
    wrapped in: [body] is handed the wrapper ([self]) and runs on the
    wrapper's world.  A call is recorded when it is made.  [depth] bounds the
    nesting of calls, as the engine's stack does. *)
Fixpoint reentrant (depth : nat)
    (body : (Ctx -> Args -> M tworld unit) -> Ctx -> Args -> M tworld unit)
    (context : Ctx) (args : Args) (w : tworld) : tworld * completion unit :=
  match depth with
  | O => (w, Throw "RangeError")
  | Datatypes.S depth' =>
      if inThrottle (state w) then (w, Normal tt)
      else
        let called :=
          {| clock := clock w;
             queue := queue w;
             state := {| inThrottle := inThrottle (state w);
                         user := user (state w);
                         invocations := invocations (state w)
                                        ++ [(clock w, context, args)] |} |} in
        match body (reentrant depth' body) context args called with
        | (w1, Throw e) => (w1, Throw e)
        | (w1, Normal _) =>
            let '(_, q) := setTimeout (clock w1) Reopen limit (queue w1) in
            ({| clock := clock w1;
                queue := q;
                state := {| inThrottle := true;
                            user := user (state w1);
                            invocations := invocations (state w1) |} |},
             Normal tt)
        end
  end.

(** A [func] that works on a state of its own, as a function on the world:
    it does not use [self]. *)
Definition on_user (f : Ctx -> Args -> S -> S * completion unit)
    (self : Ctx -> Args -> M tworld unit) (context : Ctx) (args : Args)
  : M tworld unit :=
  fun w =>
    let '(u, r) := f context args (user (state w)) in
    ({| clock := clock w;
        queue := queue w;
        state := {| inThrottle := inThrottle (state w);
                    user := u;
                    invocations := invocations (state w) |} |}, r).

(** A call of the wrapper at time [t]; the caller's handling of an
    exception is not part of the model, the world goes on. *)
Definition call_at (w : tworld) (c : Z * Ctx * Args) : tworld :=
  (wrapper c.1.2 c.2 (run_until fire c.1.1 w)).1.

Definition play (calls : list (Z * Ctx * Args)) (w : tworld) : tworld :=
  foldl call_at w calls.

Definition calls_of (w : tworld) : list (Z * Ctx * Args) :=
  invocations (state w).

(** The host changes the state [func] works on (the user scrolls, say). *)
Definition with_user (f : S -> S) (w : tworld) : tworld :=
  {| clock := clock w;
     queue := queue w;
     state := {| inThrottle := inThrottle (state w);
                 user := f (user (state w));
                 invocations := invocations (state w) |} |}.

(** The gate is closed since [tc]: [inThrottle] is set and the timer that
    reopens it is the only one armed. *)
Definition closed (w : tworld) (tc : Z) (log : list (Z * Ctx * Args)) (u : S)
  : Prop :=
  exists h,
    pending (queue w) = [ {| t_id := h; t_due := tc + limit; t_cb := Reopen |} ]
    /\ inThrottle (state w) = true
    /\ tc <= clock w < tc + limit
    /\ invocations (state w) = log
    /\ user (state w) = u.

(** The gate is open and no timer is armed. *)
Definition open (w : tworld) (log : list (Z * Ctx * Args)) (u : S) : Prop :=
  pending (queue w) = []
  /\ inThrottle (state w) = false
  /\ invocations (state w) = log
  /\ user (state w) = u.

End Throttle.

End Throttle.

(* ===================================================================== *)
(** ** The page *)
(* ===================================================================== *)

Module Page.

(** *** Values *)

(** A number read off [window]; [None] is [undefined]. *)
Definition number := option Q.

(** [a || b]: [undefined] and zero are falsy. *)
Definition js_or (a b : number) : number :=
  match a with
  | Some x => if Qeq_bool x 0 then b else a
  | None => b
  end.

(** [a > k]: a comparison with [undefined] is false. *)
Definition js_gt (a : number) (k : Q) : bool :=
  match a with
  | Some x => negb (Qle_bool x k)
  | None => false
  end.

(** Truthiness of an attribute value: absent and empty are falsy. *)
Definition truthy (v : option string) : bool :=
  match v with
  | Some s => bool_decide (s ≠ EmptyString)
  | None => false
  end.

(** [String(v)] of an attribute value: [null] prints as ["null"]. *)
Definition to_selector (v : option string) : string := default "null" v.

(** *** Elements *)

Definition node := nat.

Record element := {
  tag : string;
  classList : list string;
  style : gmap string string;
  attrs : gmap string string
}.

Definition classList_contains (tok : string) (l : list string) : bool :=
  bool_decide (tok ∈ l).

Definition classList_add (tok : string) (l : list string) : list string :=
  if classList_contains tok l then l else l ++ [tok].

Definition classList_remove (tok : string) (l : list string) : list string :=
  filter (fun c => c ≠ tok) l.

Definition classList_toggle (tok : string) (l : list string) : list string :=
  if classList_contains tok l then classList_remove tok l
  else classList_add tok l.

Definition with_classList (f : list string -> list string) (e : element)
  : element :=
  {| tag := tag e; classList := f (classList e);
     style := style e; attrs := attrs e |}.

(** [el.style.prop = value] *)
Definition set_style (prop value : string) (e : element) : element :=
  {| tag := tag e; classList := classList e;
     style := <[prop := value]> (style e); attrs := attrs e |}.

Definition set_styles (l : list (string * string)) (e : element) : element :=
  foldl (fun e kv => set_style kv.1 kv.2 e) e l.

Definition set_attr (name value : string) (e : element) : element :=
  {| tag := tag e; classList := classList e;
     style := style e; attrs := <[name := value]> (attrs e) |}.

(** The inline style of [e] has every declaration of [l]. *)
Definition styled (l : list (string * string)) (e : element) : Prop :=
  Forall (fun kv => style e !! kv.1 = Some kv.2) l.

(** *** The page state *)

(** What the script asks of the host, in the order asked; [FollowLink] is
    the host's own default action for a click on a link. *)
Inductive request :=
| ScrollIntoView (target : node) (behavior block : string)
| ScrollToOptions (top : Z) (behavior : string)
| ScrollToXY (x y : Z)
| FollowLink (href : option string).

(** The intersection observer the script creates. *)
Record observer := { rootMargin : string; observed : list node }.

Record page := {
  dom : gmap node element;
  activeElement : option node;
  scrollY : number;
  pageYOffset : number;
  innerWidth : Z;
  innerHeight : Z;
  console : list (string * string);
  requests : list request;
  defaultPrevented : bool;
  imageObserver : option observer
}.

Definition with_dom (f : gmap node element -> gmap node element) (p : page)
  : page :=
  {| dom := f (dom p); activeElement := activeElement p;
     scrollY := scrollY p; pageYOffset := pageYOffset p;
     innerWidth := innerWidth p; innerHeight := innerHeight p;
     console := console p;
     requests := requests p; defaultPrevented := defaultPrevented p;
     imageObserver := imageObserver p |}.

Definition update_element (n : node) (f : element -> element) : page -> page :=
  with_dom (alter f n).

Definition focus (n : node) (p : page) : page :=
  {| dom := dom p; activeElement := Some n;
     scrollY := scrollY p; pageYOffset := pageYOffset p;
     innerWidth := innerWidth p; innerHeight := innerHeight p;
     console := console p;
     requests := requests p; defaultPrevented := defaultPrevented p;
     imageObserver := imageObserver p |}.

(** The host moves the viewport: both names of the offset change. *)
Definition scrolled (y : Q) (p : page) : page :=
  {| dom := dom p; activeElement := activeElement p;
     scrollY := Some y; pageYOffset := Some y;
     innerWidth := innerWidth p; innerHeight := innerHeight p;
     console := console p;
     requests := requests p; defaultPrevented := defaultPrevented p;
     imageObserver := imageObserver p |}.

Definition console_log (level msg : string) (p : page) : page :=
  {| dom := dom p; activeElement := activeElement p;
     scrollY := scrollY p; pageYOffset := pageYOffset p;
     innerWidth := innerWidth p; innerHeight := innerHeight p;
     console := console p ++ [(level, msg)];
     requests := requests p; defaultPrevented := defaultPrevented p;
     imageObserver := imageObserver p |}.

Definition ask (r : request) (p : page) : page :=
  {| dom := dom p; activeElement := activeElement p;
     scrollY := scrollY p; pageYOffset := pageYOffset p;
     innerWidth := innerWidth p; innerHeight := innerHeight p;
     console := console p;
     requests := requests p ++ [r]; defaultPrevented := defaultPrevented p;
     imageObserver := imageObserver p |}.

Definition set_defaultPrevented (b : bool) (p : page) : page :=
  {| dom := dom p; activeElement := activeElement p;
     scrollY := scrollY p; pageYOffset := pageYOffset p;
     innerWidth := innerWidth p; innerHeight := innerHeight p;
     console := console p;
     requests := requests p; defaultPrevented := b;
     imageObserver := imageObserver p |}.

Definition set_imageObserver (o : option observer) (p : page) : page :=
  {| dom := dom p; activeElement := activeElement p;
     scrollY := scrollY p; pageYOffset := pageYOffset p;
     innerWidth := innerWidth p; innerHeight := innerHeight p;
     console := console p;
     requests := requests p; defaultPrevented := defaultPrevented p;
     imageObserver := o |}.

(** [el.getAttribute(name)], also [img.dataset.src] for ["data-src"]. *)
Definition getAttribute (n : node) (name : string) (p : page) : option string :=
  dom p !! n ≫= fun e => attrs e !! name.

Definition has_class (n : node) (tok : string) (p : page) : bool :=
  match dom p !! n with
  | Some e => classList_contains tok (classList e)
  | None => false
  end.

(** The nodes an observer watches. *)
Definition watched (p : page) : list node :=
  match imageObserver p with
  | Some o => observed o
  | None => []
  end.

(** [observer.observe(n)] and [observer.unobserve(n)]. *)
Definition observe (n : node) (p : page) : page :=
  match imageObserver p with
  | Some o =>
      if bool_decide (n ∈ observed o) then p
      else set_imageObserver
             (Some {| rootMargin := rootMargin o;
                      observed := observed o ++ [n] |}) p
  | None => p
  end.

Definition unobserve (n : node) (p : page) : page :=
  match imageObserver p with
  | Some o =>
      set_imageObserver
        (Some {| rootMargin := rootMargin o;
                 observed := filter (fun m => m ≠ n) (observed o) |}) p
  | None => p
  end.

(** [classList.remove("active")] on the node [m]. *)
Definition deactivate (m : node) : page -> page :=
  update_element m (with_classList (classList_remove "active")).

(** From [p] to [p'] every node is as it was or has lost ["active"]. *)
Definition only_deactivated (p p' : page) : Prop :=
  forall n, dom p' !! n = dom p !! n
            \/ dom p' !! n
               = with_classList (classList_remove "active") <$> dom p !! n.

(** The double quote, for selectors that contain one. *)
Definition dq : string := String (Ascii.ascii_of_nat 34) EmptyString.

(** [a[href^="#"]] *)
Definition anchor_selector : string := "a[href^=" +:+ dq +:+ "#" +:+ dq +:+ "]".

(** *** The host *)

Section Host.

(** [document.querySelectorAll]: the matches in document order, or the
    exception thrown for a selector the engine cannot parse. *)
Variable querySelectorAll : string -> gmap node element -> completion (list node).

(** [a.contains(b)]: [b] is [a] or one of its descendants. *)
Variable contains : node -> node -> bool.

(** What [window.scrollTo] throws when handed an options object, in an engine
    that does; [None] in an engine that accepts it.  The two-number form is
    total in every engine. *)
Variable scrollTo_options_error : option exn.

(** ["IntersectionObserver" in window] *)
Variable has_IntersectionObserver : bool.

(** The text of [`${vh}px`] for [vh = window.innerHeight * 0.01], by the
    height: the product and its printing are the host's floating point. *)
Variable px : Z -> string.

(** What [style.setProperty] throws, in an engine where it does. *)
Variable setProperty_error : option exn.

(** [document.documentElement], the root element. *)
Variable documentElement : node.

(** [document.querySelector]: the first match, or [null]. *)
Definition querySelector (s : string) (d : gmap node element)
  : completion (option node) :=
  match querySelectorAll s d with
  | Normal l => Normal (head l)
  | Throw e => Throw e
  end.

Definition scrollTo_options (top : Z) (behavior : string) : M page unit :=
  fun p =>
    match scrollTo_options_error with
    | Some e => (p, Throw e)
    | None => (ask (ScrollToOptions top behavior) p, Normal tt)
    end.

Definition scrollTo_xy (x y : Z) : M page unit := lift (ask (ScrollToXY x y)).

(** *** Safe selectors *)

Definition safeSelect (selector : string) : M page (option node) :=
  try_catch
    (fun p => (p, querySelector selector (dom p)))
    (fun e =>
       lift (console_log "warn" ("Invalid selector: " +:+ selector));;
       mret None).

Definition safeSelectAll (selector : string) : M page (list node) :=
  try_catch
    (fun p => (p, querySelectorAll selector (dom p)))
    (fun e =>
       lift (console_log "warn" ("Invalid selector: " +:+ selector));;
       mret []).

(** *** The ready callback *)

(** What the ready callback binds once and its listeners close over. *)
Record wiring := {
  anchorLinks : list node;
  header : option node;
  scrollTopBtn : option node;
  mobileMenu : option node;
  menuToggle : option node;
  lazyImages : list node
}.

(** [document.documentElement.style.setProperty(prop, value)] *)
Definition setProperty_root (prop value : string) : M page unit :=
  fun p =>
    match setProperty_error with
    | Some e => (p, Throw e)
    | None =>
        (update_element documentElement (set_style prop value) p, Normal tt)
    end.

(** [setViewportHeight], on the page: [--vh] is a declaration of the inline
    style of the root element. *)
Definition setViewportHeight : M page unit :=
  try_catch
    (vh ← gets (fun p => px (innerHeight p));
     setProperty_root "--vh" vh)
    (fun e =>
       lift (console_log "warn" ("Could not set viewport height: " +:+ e))).

(** The ready callback: what it does when it runs, in source order.  It
    looks the elements up, sets the viewport height once, creates the
    observer and observes the images, looks the forms up.  The listeners it
    adds are the functions below, each closing over the [wiring]; adding
    them changes nothing on the page.  The links inside the menu, found with
    [mobileMenu.querySelectorAll("a")], are a parameter of the click
    dispatch in [Links]. *)
Definition ready_callback : M page wiring :=
  anchorLinks ← safeSelectAll anchor_selector;
  header ← safeSelect "header";
  scrollTopBtn ← safeSelect ".scroll-top";
  mobileMenu ← safeSelect "#mobileMenu";
  menuToggle ← safeSelect ".mobile-menu-toggle";
  setViewportHeight;;
  lazyImages ←
    (if has_IntersectionObserver then
       lift (set_imageObserver
               (Some {| rootMargin := "50px"; observed := [] |}));;
       lazyImages ← safeSelectAll "img[data-src]";
       lift (fun p => foldl (fun p img => observe img p) p lazyImages);;
       mret lazyImages
     else mret []);
  forms ← safeSelectAll "form";
  mret {| anchorLinks := anchorLinks; header := header;
          scrollTopBtn := scrollTopBtn; mobileMenu := mobileMenu;
          menuToggle := menuToggle; lazyImages := lazyImages |}.

(** *** Anchor links *)

(** The click listener of an anchor link; [this] is the link. *)
Definition anchor_click (this : node) : M page unit :=
  lift (set_defaultPrevented true);;
  href ← gets (getAttribute this "href");
  target ← safeSelect (to_selector href);
  match target with
  | Some t => lift (ask (ScrollIntoView t "smooth" "start"))
  | None => mret tt
  end.

(** *** Scroll effects *)

Definition elevated : list (string * string) :=
  [ ("background",
     "linear-gradient(90deg, rgba(242, 145, 182, 0.95), rgba(228, 183, 207, 0.95))");
    ("backdropFilter", "blur(10px)");
    ("webkitBackdropFilter", "blur(10px)") ].

Definition base : list (string * string) :=
  [ ("background", "linear-gradient(90deg, #f291b6, #e4b7cf)");
    ("backdropFilter", "none");
    ("webkitBackdropFilter", "none") ].

(** [window.scrollY || window.pageYOffset] *)
Definition offset_read (p : page) : number := js_or (scrollY p) (pageYOffset p).

(** The function handed to [throttle]. *)
Definition scroll_body (w : wiring) (p : page) : page :=
  let scrollY := offset_read p in
  let p1 :=
    match header w with
    | Some h =>
        if js_gt scrollY (100 # 1)
        then update_element h (set_styles elevated) p
        else update_element h (set_styles base) p
    | None => p
    end in
  match scrollTopBtn w with
  | Some b =>
      if js_gt scrollY (500 # 1)
      then update_element b (with_classList (classList_add "visible")) p1
      else update_element b (with_classList (classList_remove "visible")) p1
  | None => p1
  end.

Definition scroll_func (w : wiring) (_ _ : unit) : M page unit :=
  lift (scroll_body w).

(** [handleScroll = throttle(function () { ... }, 16)] *)
Definition handleScroll (w : wiring)
  : Throttle.tworld -> Throttle.tworld * completion unit :=
  Throttle.wrapper (scroll_func w) 16 tt tt.

Definition scroll_world (t0 : Z) (p : page) : @Throttle.tworld unit unit page :=
  Throttle.throttle t0 p.

(** A scroll event at time [t] with the viewport at offset [y]: the timers
    due by then have fired, the host has moved the viewport, the listener
    runs. *)
Definition scroll_event (w : wiring) (tw : Throttle.tworld) (ev : Z * Q)
  : Throttle.tworld :=
  (handleScroll w
     (Throttle.with_user (scrolled ev.2)
        (run_until Throttle.fire ev.1 tw))).1.

(** Scroll events each more than [gap] after the one before; [prev] is the
    time of the event before the first. *)
Fixpoint spaced (gap prev : Z) (events : list (Z * Q)) : Prop :=
  match events with
  | [] => True
  | ev :: rest => prev + gap < ev.1 /\ spaced gap ev.1 rest
  end.

(** What the handler would do without the throttle: its body on every
    event. *)
Definition unthrottled (w : wiring) (p : page) (ev : Z * Q) : page :=
  scroll_body w (scrolled ev.2 p).

(** *** Mobile menu *)

Definition toggleMobileMenu : M page unit :=
  mobileMenu ← safeSelect "#mobileMenu";
  match mobileMenu with
  | Some m =>
      lift (update_element m (with_classList (classList_toggle "active")))
  | None => mret tt
  end.

Definition closeMobileMenu : M page unit :=
  mobileMenu ← safeSelect "#mobileMenu";
  match mobileMenu with
  | Some m =>
      lift (update_element m (with_classList (classList_remove "active")))
  | None => mret tt
  end.

(** The document's click listener; it is registered only when both the menu
    and its toggle were found. *)
Definition outside_click (w : wiring) (target : node) (p : page) : page :=
  match menuToggle w, mobileMenu w with
  | Some tg, Some m =>
      if negb (contains m target) && negb (contains tg target)
      then update_element m (with_classList (classList_remove "active")) p
      else p
  | _, _ => p
  end.

Definition handleKeyboardNavigation (w : wiring) (key : string) (p : page)
  : page :=
  match mobileMenu w with
  | Some m =>
      if String.eqb key "Escape" && has_class m "active" p
      then
        let p1 :=
          update_element m (with_classList (classList_remove "active")) p in
        match menuToggle w with
        | Some tg => focus tg p1
        | None => p1
        end
      else p
  | None => p
  end.

(** A click on the link [a]: its own listener, then the document's, then the
    host follows the link unless a listener prevented it.  Listeners of
    nodes between the link and the document are not part of this. *)
Definition click_link (w : wiring) (a : node) (p : page) : page :=
  let p0 := set_defaultPrevented false p in
  let p1 :=
    if bool_decide (a ∈ anchorLinks w) then (anchor_click a p0).1 else p0 in
  let p2 := outside_click w a p1 in
  if defaultPrevented p2 then p2
  else ask (FollowLink (getAttribute a "href" p2)) p2.

(** *** Lazy images *)

Record entry := { isIntersecting : bool; target : node }.

(** The body of the [forEach] in the observer's callback. *)
Definition image_entry (p : page) (e : entry) : page :=
  if isIntersecting e then
    let img := target e in
    let src := getAttribute img "data-src" p in
    if truthy src then
      unobserve img
        (update_element img (with_classList (classList_remove "lazy"))
           (update_element img (set_attr "src" (default EmptyString src)) p))
    else p
  else p.

Definition image_callback (entries : list entry) (p : page) : page :=
  foldl image_entry p entries.

(** The host calls back with entries for nodes that are being observed. *)
Definition deliver (p : page) (entries : list entry) : option page :=
  if forallb (fun e => bool_decide (target e ∈ watched p)) entries
  then Some (image_callback entries p)
  else None.

Definition deliveries (batches : list (list entry)) (p : page) : option page :=
  foldl (fun o b => o ≫= fun p => deliver p b) (Some p) batches.

(** The image [img] shows [s]: its [src] is [s] and it is not ["lazy"]. *)
Definition upgraded (img : node) (s : string) (p : page) : Prop :=
  exists e, dom p !! img = Some e
            /\ attrs e !! "src" = Some s
            /\ "lazy" ∉ classList e.

(** The image still carries the deferred source [s]. *)
Definition deferred (img : node) (s : string) (p : page) : Prop :=
  exists e, dom p !! img = Some e /\ attrs e !! "data-src" = Some s.

(** The image has been upgraded and is no longer observed. *)
Definition settled (img : node) (s : string) (p : page) : Prop :=
  exists e, dom p !! img = Some e
            /\ attrs e !! "data-src" = Some s
            /\ attrs e !! "src" = Some s
            /\ ("lazy" ∉ classList e)
            /\ (img ∉ watched p).

(** *** Functions attached to [window] *)

Definition scrollToTop : M page unit :=
  try_catch (scrollTo_options 0 "smooth") (fun e => scrollTo_xy 0 0).

Definition getScreenSize (p : page) : string :=
  let width := innerWidth p in
  if width <? 576 then "xs"
  else if width <? 768 then "sm"
  else if width <? 992 then "md"
  else if width <? 1200 then "lg"
  else "xl".

End Host.

End Page.

(* ===================================================================== *)
(** ** The [closest] shim *)
(* ===================================================================== *)

Module Closest.

Definition node := nat.

(** The three properties of a node the shim reads; [None] is [null]. *)
Record tree := {
  nodeType : node -> Z;
  parentElement : node -> option node;
  parentNode : node -> option node
}.

Section Closest.
Variable T : tree.

(** [el.matches(s)]; it throws for a selector that does not parse. *)
Variable matches : string -> node -> completion bool.

(** [el.parentElement || el.parentNode] *)
Definition parent_of (el : node) : option node :=
  match parentElement T el with
  | Some p => Some p
  | None => parentNode T el
  end.

(** Where one turn of the loop leaves [el] when the loop goes on:
    [el !== null && el.nodeType === 1]. *)
Definition up (el : node) : option node :=
  match parent_of el with
  | Some p => if nodeType T p =? 1 then Some p else None
  | None => None
  end.

(** [do { if (el.matches(s)) return el; el = ...; } while (...); return null;]
    with a bound on the number of turns; [None] when the bound is hit. *)
Fixpoint closest_loop (fuel : nat) (s : string) (el : node)
  : option (completion (option node)) :=
  match fuel with
  | O => None
  | S fuel' =>
      match matches s el with
      | Throw e => Some (Throw e)
      | Normal true => Some (Normal (Some el))
      | Normal false =>
          match up el with
          | Some p => closest_loop fuel' s p
          | None => Some (Normal None)
          end
      end
  end.

(** The [k]-th node of the walk that starts at [el]. *)
Fixpoint walk (k : nat) (el : node) : option node :=
  match k with
  | O => Some el
  | S k' => up el ≫= walk k'
  end.

(** The walk from [el] ends: the chain of parents is finite and has no
    cycle. *)
Inductive ends : node -> Prop :=
| ends_top el : up el = None -> ends el
| ends_step el p : up el = Some p -> ends p -> ends el.

(** No node of the walk before the [k]-th matches. *)
Definition unmatched_before (s : string) (el : node) (k : nat) : Prop :=
  forall j b, (j < k)%nat -> walk j el = Some b -> matches s b = Normal false.

(** What the shim is to return from [el]: the first node of the walk that
    matches; [null] when the walk ends without a match; and the exception of
    [matches] when it throws before either. *)
Definition first_match (s : string) (el : node) (r : completion (option node))
  : Prop :=
  match r with
  | Normal (Some a) =>
      exists k, walk k el = Some a
                /\ matches s a = Normal true
                /\ unmatched_before s el k
  | Normal None =>
      exists k top, walk k el = Some top
                    /\ up top = None
                    /\ unmatched_before s el (S k)
  | Throw e =>
      exists k b, walk k el = Some b
                  /\ matches s b = Throw e
                  /\ unmatched_before s el k
  end.

End Closest.

End Closest.

(* ===================================================================== *)
(** ** A small host *)
(* ===================================================================== *)

(** A host to run the script on: a document whose nodes are numbered in
    document order, and a selector engine for the selectors the script itself
    writes (a tag, [.class], [#id], the anchor selector, [img[data-src]]);
    everything else it rejects. *)
Module SmallHost.
Import Page.

Definition is_ident_char (a : Ascii.ascii) : bool :=
  let n := Ascii.nat_of_ascii a in
  ((97 <=? n) && (n <=? 122) || (65 <=? n) && (n <=? 90)
   || (48 <=? n) && (n <=? 57) || (n =? 45) || (n =? 95))%nat.

Definition is_digit (a : Ascii.ascii) : bool :=
  let n := Ascii.nat_of_ascii a in ((48 <=? n) && (n <=? 57))%nat.

Fixpoint all_ident (s : string) : bool :=
  match s with
  | EmptyString => true
  | String a r => is_ident_char a && all_ident r
  end.

Definition is_ident (s : string) : bool :=
  match s with
  | EmptyString => false
  | String a _ => negb (is_digit a) && all_ident s
  end.

Definition starts_with_hash (v : option string) : bool :=
  match v with
  | Some (String a _) => bool_decide (a = "#"%char)
  | _ => false
  end.

Definition parse (s : string) : option (element -> bool) :=
  if bool_decide (s = anchor_selector) then
    Some (fun e => bool_decide (tag e = "a")
                   && starts_with_hash (attrs e !! "href"))
  else if bool_decide (s = "img[data-src]") then
    Some (fun e => bool_decide (tag e = "img")
                   && bool_decide (is_Some (attrs e !! "data-src")))
  else
    match s with
    | String "#" i =>
        if is_ident i
        then Some (fun e => bool_decide (attrs e !! "id" = Some i))
        else None
    | String "." c =>
        if is_ident c
        then Some (fun e => bool_decide (c ∈ classList e))
        else None
    | _ =>
        if is_ident s
        then Some (fun e => bool_decide (tag e = s))
        else None
    end.

Definition before (a b : node * element) : Prop := (a.1 <= b.1)%nat.

#[global] Instance before_dec : RelDecision before.
Proof. intros a b. unfold before. apply _. Defined.

Definition in_order (d : gmap node element) : list (node * element) :=
  merge_sort before (map_to_list d).

Definition querySelectorAll (s : string) (d : gmap node element)
  : completion (list node) :=
  match parse s with
  | Some f => Normal (filter (fun ne => f ne.2) (in_order d)).*1
  | None => Throw "SyntaxError"
  end.

(** The sample page as a tree: the [span] (10) is inside the link 5, which
    is inside the menu (3); everything is inside the root (0). *)
Definition ancestors (n : node) : list node :=
  match n with
  | 0%nat => []
  | 10%nat => [5; 3; 0]%nat
  | 5%nat => [3; 0]%nat
  | _ => [0%nat]
  end.

Definition contains (a b : node) : bool :=
  bool_decide (b = a \/ a ∈ ancestors b).

Definition el (t : string) (classes : list string)
    (attributes : list (string * string)) : element :=
  {| tag := t; classList := classes; style := ∅;
     attrs := list_to_map attributes |}.

Definition blank (d : gmap node element) : page :=
  {| dom := d; activeElement := None;
     scrollY := Some (0 # 1)%Q; pageYOffset := Some (0 # 1)%Q;
     innerWidth := 1280; innerHeight := 800;
     console := []; requests := [];
     defaultPrevented := false; imageObserver := None |}.

(** An empty page in a window [w] pixels wide. *)
Definition sized (w : Z) : page :=
  {| dom := ∅; activeElement := None;
     scrollY := Some (0 # 1)%Q; pageYOffset := Some (0 # 1)%Q;
     innerWidth := w; innerHeight := 800;
     console := []; requests := [];
     defaultPrevented := false; imageObserver := None |}.

(** The text of the viewport unit for a few heights. *)
Definition px (h : Z) : string :=
  if h =? 500 then "5px"
  else if h =? 700 then "7px"
  else if h =? 800 then "8px"
  else "px".

(** The root element of the sample page. *)
Definition root : node := 0%nat.

(** A page with everything the script looks for; the [span] (10) is inside
    the link 5, which is inside the menu (3). *)
Definition sample_dom : gmap node element :=
  list_to_map
    [ (0%nat, el "html" [] []);
      (1%nat, el "header" [] []);
      (2%nat, el "button" ["mobile-menu-toggle"] []);
      (3%nat, el "nav" ["active"] [("id", "mobileMenu")]);
      (4%nat, el "a" [] [("href", "#section2")]);
      (5%nat, el "a" [] [("href", "#nowhere")]);
      (6%nat, el "section" [] [("id", "section2")]);
      (7%nat, el "img" ["lazy"] [("data-src", "photo.jpg")]);
      (8%nat, el "img" ["lazy"] [("data-src", EmptyString)]);
      (9%nat, el "button" ["scroll-top"] []);
      (10%nat, el "span" [] []) ].

Definition sample : page := blank sample_dom.

(** What the ready callback finds on the sample page, and the page it
    leaves. *)
Definition sample_wiring : wiring :=
  {| anchorLinks := [4; 5]%nat;
     header := Some 1%nat;
     scrollTopBtn := Some 9%nat;
     mobileMenu := Some 3%nat;
     menuToggle := Some 2%nat;
     lazyImages := [7; 8]%nat |}.

Definition sample_ready : page :=
  (ready_callback querySelectorAll true px None root sample).1.

(** What one sees of the sample page after a run of scroll events. *)
Definition header_background (tw : @Throttle.tworld unit unit page)
  : option string :=
  dom (Throttle.user (state tw)) !! 1%nat ≫= fun e => style e !! "background".

Definition button_visible (tw : @Throttle.tworld unit unit page) : bool :=
  has_class 9%nat "visible" (Throttle.user (state tw)).

Definition scroll_run (events : list (Z * Q)) : Throttle.tworld :=
  foldl (scroll_event sample_wiring) (scroll_world 0 sample_ready) events.

(** A document (0), and under it [html] (1), [body] (2), [nav] (3), [a] (4). *)
Definition sample_tree : Closest.tree :=
  {| Closest.nodeType := fun n => if (n =? 0)%nat then 9 else 1;
     Closest.parentElement := fun n =>
       match n with
       | O | S O => None
       | S n' => Some n'
       end;
     Closest.parentNode := fun n =>
       match n with
       | O => None
       | S n' => Some n'
       end |}.

(** A [func] that records its arguments, and one that always throws. *)
Definition recorder (a : string) (s : list string)
  : list string * completion unit := (s ++ [a], Normal tt).

Definition thrower (_ : unit) (a : string) (s : list string)
  : list string * completion unit := (s ++ [a], Throw "Error").


(** [matches] for the sample tree: only ["nav"] and ["a"] name a node. *)
Definition sample_matches (s : string) (n : Closest.node) : completion bool :=
  if is_ident s then
    Normal (bool_decide (s = "nav" /\ n = 3%nat)
            || bool_decide (s = "a" /\ n = 4%nat))
  else Throw "SyntaxError".

End SmallHost.


(* ===================================================================== *)
(** ** What the wrappers let through, call by call *)
(* ===================================================================== *)

Module Quiet.

Section Quiet.
Context {Ctx Args : Type}.




(** The state of a throttled wrapper between calls: the time, the record of
    invocations, the state [func] works on, and the gate.  An open gate has
    no timer armed; a closed gate has exactly the timer that reopens it, due
    at [d], not yet fired and at most [l] away. *)
Definition gate_is {S} (l : Z) (w : @Throttle.tworld Ctx Args S)
    (gate : option Z) (now : Z) (log : list (Z * Ctx * Args)) (u : S) : Prop :=
  clock w = now
  /\ Throttle.invocations (state w) = log
  /\ Throttle.user (state w) = u
  /\ match gate with
     | None =>
         pending (queue w) = [] /\ Throttle.inThrottle (state w) = false
     | Some d =>
         Throttle.inThrottle (state w) = true
         /\ now <= d <= now + l
         /\ exists h,
              pending (queue w)
              = [ {| t_id := h; t_due := d; t_cb := Throttle.Reopen |} ]
     end.

End Quiet.

End Quiet.

(* ===================================================================== *)
(** ** [ready(fn)] *)
(* ===================================================================== *)

Module Ready.

Section Ready.
(** [F] names the functions handed to [ready]; [run] is what calling one does
    to the rest of the program. *)
Context {F S : Type} `{EqDecision F}.
Variable run : F -> S -> S * completion unit.

(** [contentLoaded] holds the listeners of ["DOMContentLoaded"] in the order
    added; [ran] records every call of a function, in order. *)
Record document := {
  readyState : string;
  contentLoaded : list F;
  user : S;
  ran : list F
}.

(** [fn()] *)
Definition call (fn : F) (d : document) : document * completion unit :=
  let '(u, r) := run fn (user d) in
  ({| readyState := readyState d; contentLoaded := contentLoaded d;
      user := u; ran := ran d ++ [fn] |}, r).

(** [document.addEventListener("DOMContentLoaded", fn)]: a listener that is
    already there is not added again. *)
Definition addEventListener (fn : F) (d : document) : document :=
  if decide (fn ∈ contentLoaded d) then d
  else {| readyState := readyState d;
          contentLoaded := contentLoaded d ++ [fn];
          user := user d; ran := ran d |}.

Definition ready (fn : F) : M document unit :=
  fun d =>
    if bool_decide (readyState d ≠ "loading") then call fn d
    else (addEventListener fn d, Normal tt).

(** The host: the document has been parsed.  The state becomes
    ["interactive"] and the listeners run in order; what one throws is
    reported and the next one runs. *)
Definition DOMContentLoaded (d : document) : document :=
  foldl (fun d fn => (call fn d).1)
    {| readyState := "interactive"; contentLoaded := contentLoaded d;
       user := user d; ran := ran d |}
    (contentLoaded d).

(** Several calls of [ready], one after the other; the script goes on only
    while none throws. *)
Fixpoint readies (fns : list F) : M document unit :=
  match fns with
  | [] => mret tt
  | fn :: rest => ready fn;; readies rest
  end.

End Ready.

End Ready.

(* ===================================================================== *)
(** ** The viewport height *)
(* ===================================================================== *)

Module Viewport.

(** The window as this part of the script sees it: its height, the custom
    property [--vh] of the root element, the console. *)
Record window := {
  innerHeight : Z;
  vh : option string;
  console : list (string * string)
}.

Section Viewport.

(** The text of [`${window.innerHeight * 0.01}px`] for a height: the product
    and its printing are the host's floating point. *)
Variable px : Z -> string.

(** What [style.setProperty] throws, in an engine where it does. *)
Variable setProperty_error : option exn.

Definition setProperty_vh (value : string) : M window unit :=
  fun s =>
    match setProperty_error with
    | Some e => (s, Throw e)
    | None =>
        ({| innerHeight := innerHeight s; vh := Some value;
            console := console s |}, Normal tt)
    end.

Definition console_warn (msg : string) (s : window) : window :=
  {| innerHeight := innerHeight s; vh := vh s;
     console := console s ++ [("warn", msg)] |}.

Definition setViewportHeight : M window unit :=
  try_catch
    (vh ← gets (fun s => px (innerHeight s));
     setProperty_vh vh)
    (fun e => lift (console_warn ("Could not set viewport height: " +:+ e))).

(** The two kinds of timer this part of the script arms: the one of
    [handleOrientationChange], whose callback is [setViewportHeight] itself,
    and [later] of [debounce(setViewportHeight, 100)]. *)
Inductive callback := Settle | Later.

(** [timeout] is the closure variable of the debounced resize listener;
    [runs] records when [setViewportHeight] ran and the height it read. *)
Record closure := {
  timeout : option nat;
  win : window;
  runs : list (Z * Z)
}.

Definition vworld := world callback closure.

Definition run_setViewportHeight (w : vworld) : vworld :=
  {| clock := clock w;
     queue := queue w;
     state := {| timeout := timeout (state w);
                 win := (setViewportHeight (win (state w))).1;
                 runs := runs (state w)
                         ++ [(clock w, innerHeight (win (state w)))] |} |}.

Definition fire (cb : callback) (w : vworld) : vworld :=
  match cb with
  | Settle => run_setViewportHeight w
  | Later =>
      run_setViewportHeight
        {| clock := clock w;
           queue := clearTimeout (timeout (state w)) (queue w);
           state := state w |}
  end.

(** [setTimeout(setViewportHeight, 100)] *)
Definition handleOrientationChange (w : vworld) : vworld :=
  {| clock := clock w;
     queue := (setTimeout (clock w) Settle 100 (queue w)).2;
     state := state w |}.

(** The listener [debounce(setViewportHeight, 100)]. *)
Definition resize_listener (w : vworld) : vworld :=
  let q1 := clearTimeout (timeout (state w)) (queue w) in
  let '(h, q2) := setTimeout (clock w) Later 100 q1 in
  {| clock := clock w;
     queue := q2;
     state := {| timeout := Some h;
                 win := win (state w);
                 runs := runs (state w) |} |}.

(** What the ready callback does here: a first [setViewportHeight()], then
    the two listeners are added. *)
Definition init (t0 : Z) (s : window) : vworld :=
  run_setViewportHeight
    {| clock := t0; queue := no_timers;
       state := {| timeout := None; win := s; runs := [] |} |}.

(** What the host does: the window gets the height [h] and ["resize"] is
    dispatched, or ["orientationchange"] is dispatched. *)
Inductive event := Resize (h : Z) | OrientationChange.

Definition set_height (h : Z) (w : vworld) : vworld :=
  {| clock := clock w;
     queue := queue w;
     state := {| timeout := timeout (state w);
                 win := {| innerHeight := h; vh := vh (win (state w));
                           console := console (win (state w)) |};
                 runs := runs (state w) |} |}.

Definition dispatch (w : vworld) (ev : Z * event) : vworld :=
  let w1 := run_until fire ev.1 w in
  match ev.2 with
  | Resize h => resize_listener (set_height h w1)
  | OrientationChange => handleOrientationChange w1
  end.

Definition play (events : list (Z * event)) (w : vworld) : vworld :=
  foldl dispatch w events.

(** The height the window has after the events. *)
Definition height_after (h0 : Z) (events : list (Z * event)) : Z :=
  foldl (fun h ev => match ev.2 with Resize h' => h' | OrientationChange => h end)
    h0 events.

(** The height [h] is current in [--vh], or a timer is armed that will make
    it so. *)
Definition settling (h : Z) (w : vworld) : Prop :=
  innerHeight (win (state w)) = h
  /\ (vh (win (state w)) = Some (px h) \/ pending (queue w) ≠ []).

(** Every armed timer is due within 100 ms. *)
Definition soon (w : vworld) : Prop :=
  Forall (fun x => t_due x <= clock w + 100) (pending (queue w)).

End Viewport.

End Viewport.

(* ===================================================================== *)
(** ** Clicks on links, with the menu's own links *)
(* ===================================================================== *)

Module Links.
Import Page.


Section Links.
Variable querySelectorAll : string -> gmap node element -> completion (list node).

(** The elements a node is inside of, nearest first, up to the root. *)
Variable ancestors : node -> list node.

(** [a.contains(b)]: [b] is [a] or one of its descendants. *)
Definition contains (a b : node) : bool :=
  bool_decide (b = a \/ a ∈ ancestors b).





End Links.

End Links.

(* ===================================================================== *)
(** ** What the scroll handler's body does, node by node *)
(* ===================================================================== *)

Module Restyle.
Import Page.

(** What the body does to the element of node [n] when the offset read is
    [y]: the header gets one of the two styles, the button gains or loses
    ["visible"], every other node is left alone. *)
Definition header_part (w : wiring) (y : number) (n : node) (e : element)
  : element :=
  if decide (header w = Some n)
  then set_styles (if js_gt y (100 # 1) then elevated else base) e
  else e.

Definition button_part (w : wiring) (y : number) (n : node) (e : element)
  : element :=
  if decide (scrollTopBtn w = Some n)
  then with_classList (if js_gt y (500 # 1)
                       then classList_add "visible"
                       else classList_remove "visible") e
  else e.

End Restyle.

(* ===================================================================== *)
(** ** [checkBrowserSupport] *)
(* ===================================================================== *)

Module Support.
Import Page.

Record support := {
  flexbox : bool;
  grid : bool;
  customProperties : bool;
  intersectionObserver : bool;
  backdropFilter : bool
}.

(** [Object.entries(support)]: the properties in the order written. *)
Definition entries (s : support) : list (string * bool) :=
  [ ("flexbox", flexbox s);
    ("grid", grid s);
    ("customProperties", customProperties s);
    ("intersectionObserver", intersectionObserver s);
    ("backdropFilter", backdropFilter s) ].

Section Support.

(** [CSS.supports], or what evaluating [CSS.supports(...)] throws in an
    engine that has no such function. *)
Variable CSS_supports : (string -> string -> bool) + exn.

(** ["IntersectionObserver" in window] *)
Variable has_IntersectionObserver : bool.

Definition supports (property value : string) : M page bool :=
  fun p =>
    match CSS_supports with
    | inl f => (p, Normal (f property value))
    | inr e => (p, Throw e)
    end.

Definition report (p : page) (entry : string * bool) : page :=
  if entry.2 then p
  else console_log "info" ("Browser does not support: " +:+ entry.1) p.

Definition checkBrowserSupport : M page support :=
  flexbox ← supports "display" "flex";
  grid ← supports "display" "grid";
  customProperties ← supports "--test" "test";
  backdropFilter ← supports "backdrop-filter" "blur(1px)";
  let support :=
    {| flexbox := flexbox; grid := grid;
       customProperties := customProperties;
       intersectionObserver := has_IntersectionObserver;
       backdropFilter := backdropFilter |} in
  lift (fun p => foldl report p (entries support));;
  mret support.

End Support.

End Support.

(* ===================================================================== *)
(** ** The [matches] shim, and the two shims together *)
(* ===================================================================== *)

Module Shims.

Definition matcher := string -> Closest.node -> completion bool.

(** What [Element.prototype.closest] is: the engine's own function, or the
    function the script assigns. *)
Inductive closest_impl :=
| Native (f : string -> Closest.node -> completion (option Closest.node))
| Shim.

(** The four properties of [Element.prototype] the script reads; [None] is
    [undefined]. *)
Record prototype := {
  matches : option matcher;
  msMatchesSelector : option matcher;
  webkitMatchesSelector : option matcher;
  closest : option closest_impl
}.

(** [a || b] on two function values. *)
Definition or_else {A} (a b : option A) : option A :=
  match a with Some _ => a | None => b end.

(** [if (!Element.prototype.matches) Element.prototype.matches = ... || ...;] *)
Definition install_matches (E : prototype) : prototype :=
  match matches E with
  | Some _ => E
  | None =>
      {| matches := or_else (msMatchesSelector E) (webkitMatchesSelector E);
         msMatchesSelector := msMatchesSelector E;
         webkitMatchesSelector := webkitMatchesSelector E;
         closest := closest E |}
  end.

(** [if (!Element.prototype.closest) Element.prototype.closest = function ...] *)
Definition install_closest (E : prototype) : prototype :=
  match closest E with
  | Some _ => E
  | None =>
      {| matches := matches E;
         msMatchesSelector := msMatchesSelector E;
         webkitMatchesSelector := webkitMatchesSelector E;
         closest := Some Shim |}
  end.

Definition polyfill (E : prototype) : prototype :=
  install_closest (install_matches E).

(** [el.matches(s)]: calling [undefined] throws. *)
Definition call_matches (E : prototype) : matcher :=
  fun s el =>
    match matches E with
    | Some f => f s el
    | None => Throw "TypeError"
    end.

(** [el.closest(s)]; the shim looks [matches] up when it runs. *)
Definition call_closest (T : Closest.tree) (E : prototype) (fuel : nat)
    (s : string) (el : Closest.node)
  : option (completion (option Closest.node)) :=
  match closest E with
  | Some (Native f) => Some (f s el)
  | Some Shim => Closest.closest_loop T (call_matches E) fuel s el
  | None => Some (Throw "TypeError")
  end.

End Shims.

(* ===================================================================== *)
(** ** The script from top to bottom *)
(* ===================================================================== *)

Module Script.

(** The two functions the script hands to [ready]: the anonymous function of
    line 57 and [checkBrowserSupport]. *)
Inductive fn := Wiring | Probe.

#[global] Instance fn_eq_dec : EqDecision fn.
Proof. solve_decision. Defined.

Section Script.
Variable querySelectorAll :
  string -> gmap Page.node Page.element -> completion (list Page.node).
Variable has_IntersectionObserver : bool.
Variable CSS_supports : (string -> string -> bool) + exn.
Variable px : Z -> string.
Variable setProperty_error : option exn.
Variable documentElement : Page.node.

(** What the two functions work on: the page, and [Element.prototype]. *)
Definition realm : Type := Page.page * Shims.prototype.

Definition run (f : fn) (r : realm) : realm * completion unit :=
  match f with
  | Wiring =>
      let '(p, c) :=
        Page.ready_callback querySelectorAll has_IntersectionObserver
          px setProperty_error documentElement r.1 in
      ((p, r.2), match c with Normal _ => Normal tt | Throw e => Throw e end)
  | Probe =>
      let '(p, c) :=
        Support.checkBrowserSupport CSS_supports has_IntersectionObserver r.1 in
      ((p, r.2), match c with Normal _ => Normal tt | Throw e => Throw e end)
  end.

Definition install_shims (d : @Ready.document fn realm)
  : @Ready.document fn realm :=
  {| Ready.readyState := Ready.readyState d;
     Ready.contentLoaded := Ready.contentLoaded d;
     Ready.user := ((Ready.user d).1, Shims.polyfill (Ready.user d).2);
     Ready.ran := Ready.ran d |}.

(** The statements of the script in order: [ready(function () { ... })],
    the assignments to [window] (they cannot throw), [ready(checkBrowserSupport)],
    the two shims.  A statement that throws ends the script. *)
Definition script : M (@Ready.document fn realm) unit :=
  Ready.ready run Wiring;;
  Ready.ready run Probe;;
  lift install_shims.

End Script.

End Script.

(* ===================================================================== *)
(** ** More of the small host *)
(* ===================================================================== *)

Module Samples.
Import Page.

(** The text of the viewport unit, as on the sample page. *)
Definition px : Z -> string := SmallHost.px.

Definition window0 : Viewport.window :=
  {| Viewport.innerHeight := 800; Viewport.vh := None;
     Viewport.console := [] |}.

(** Functions handed to [ready], by name; each records that it ran, and
    ["boom"] throws. *)
Definition run_named (fn : string) (log : list string)
  : list string * completion unit :=
  (log ++ [fn], if bool_decide (fn = "boom") then Throw "Error" else Normal tt).

Definition loading : @Ready.document string (list string) :=
  {| Ready.readyState := "loading"; Ready.contentLoaded := [];
     Ready.user := []; Ready.ran := [] |}.

(** An engine with only the [ms] matcher, and one with nothing. *)
Definition ms_engine : Shims.prototype :=
  {| Shims.matches := None;
     Shims.msMatchesSelector := Some SmallHost.sample_matches;
     Shims.webkitMatchesSelector := None;
     Shims.closest := None |}.

Definition bare_engine : Shims.prototype :=
  {| Shims.matches := None;
     Shims.msMatchesSelector := None;
     Shims.webkitMatchesSelector := None;
     Shims.closest := None |}.

(** The sample page, parsed, in the engine with only the [ms] matcher. *)
Definition parsed : @Ready.document Script.fn Script.realm :=
  {| Ready.readyState := "complete"; Ready.contentLoaded := [];
     Ready.user := (SmallHost.sample, ms_engine); Ready.ran := [] |}.

(** The sample page after the ready callback in an engine without
    [IntersectionObserver]. *)
Definition sample_unobserved : page :=
  (ready_callback SmallHost.querySelectorAll false SmallHost.px None
     SmallHost.root SmallHost.sample).1.

Definition sample_wiring_unobserved : wiring :=
  {| anchorLinks := [4; 5]%nat;
     header := Some 1%nat;
     scrollTopBtn := Some 9%nat;
     mobileMenu := Some 3%nat;
     menuToggle := Some 2%nat;
     lazyImages := [] |}.

End Samples.

(* ===================================================================== *)
(** * Properties *)
(* ===================================================================== *)

(** ** The delay of a timer *)



Lemma timeout_of_nonneg d : 0 <= timeout_of d.
Proof. unfold timeout_of. lia. Qed.

(** ** The event loop: the fuel of [run_until] is enough *)

Section TimerFacts.
Context {C X : Type}.
Implicit Types (l : list (timer C)) (x : timer C) (q : timers C) (w : world C X).

Lemma earliest_In l x : earliest l = Some x -> x ∈ l.
Proof.
  revert x. induction l as [|y r IH]; simpl; intros x Hx; [done|].
  destruct (earliest r) as [z|] eqn:Hr.
  - destruct (t_due z <? t_due y); simplify_eq.
    + right. by apply IH.
    + left.
  - simplify_eq. left.
Qed.

Lemma pop_due_shrinks t q x q' :
  pop_due t q = Some (x, q') ->
  (length (pending q') < length (pending q))%nat.
Proof.
  unfold pop_due. destruct (earliest (pending q)) as [y|] eqn:He; [|done].
  destruct (t_due y <=? t); [|done]. intros [= <- <-]. simpl.
  apply earliest_In in He.
  induction (pending q) as [|z r IH]; [by apply elem_of_nil in He|].
  rewrite filter_cons. apply elem_of_cons in He as [<-|Hin].
  - rewrite decide_False by (intros H; by apply H).
    pose proof (length_filter (fun x => t_id x ≠ t_id y) r). simpl. lia.
  - specialize (IH Hin). case_decide; simpl; lia.
Qed.

Lemma pop_due_nil t q : pending q = [] -> pop_due t q = None.
Proof. unfold pop_due. by intros ->. Qed.

(** When callbacks arm no timers, every timer due by [t] has fired once
    [run_until t] returns. *)
Variable fire : C -> world C X -> world C X.
Hypothesis fire_arms_nothing : forall c w,
  (length (pending (queue (fire c w))) <= length (pending (queue w)))%nat.

Lemma run_fuel_settles n t w :
  (length (pending (queue w)) <= n)%nat ->
  pop_due t (queue (run_fuel fire n t w)) = None.
Proof.
  revert w. induction n as [|n IH]; intros w Hn; simpl.
  - unfold pop_due. destruct (pending (queue w)); [done|simpl in Hn; lia].
  - destruct (pop_due t (queue w)) as [[x q']|] eqn:Hp; [|done].
    apply IH. apply pop_due_shrinks in Hp.
    etransitivity; [apply fire_arms_nothing|]. simpl. lia.
Qed.

Lemma run_until_settles t w : pop_due t (queue (run_until fire t w)) = None.
Proof. unfold run_until; simpl. by apply run_fuel_settles. Qed.

End TimerFacts.

(** A timer table with nothing armed: letting time pass only moves the clock. *)
Lemma run_until_idle {C X} (fire : C -> world C X -> world C X) t (w : world C X) :
  pending (queue w) = [] ->
  run_until fire t w
  = {| clock := Z.max (clock w) t; queue := queue w; state := state w |}.
Proof. unfold run_until. by intros ->. Qed.

(** One timer armed and not yet due: the same. *)
Lemma run_until_early {C X} (fire : C -> world C X -> world C X) t
    (w : world C X) x :
  pending (queue w) = [x] -> t < t_due x ->
  run_until fire t w
  = {| clock := Z.max (clock w) t; queue := queue w; state := state w |}.
Proof.
  intros Hq Ht. unfold run_until. rewrite Hq. simpl.
  unfold pop_due. rewrite Hq. simpl.
  by rewrite (proj2 (Z.leb_gt _ _) Ht).
Qed.

(** One timer armed and due: it fires, at its due time, with an empty table. *)
Lemma run_until_due {C X} (fire : C -> world C X -> world C X) t
    (w : world C X) x :
  pending (queue w) = [x] -> t_due x <= t ->
  let w' := fire (t_cb x)
              {| clock := Z.max (clock w) (t_due x);
                 queue := {| next_id := next_id (queue w); pending := [] |};
                 state := state w |} in
  run_until fire t w
  = {| clock := Z.max (clock w') t; queue := queue w'; state := state w' |}.
Proof.
  intros Hq Ht. unfold run_until. rewrite Hq. simpl.
  unfold pop_due. rewrite Hq. simpl.
  rewrite (proj2 (Z.leb_le _ _) Ht). simpl. rewrite Hq.
  rewrite filter_cons, decide_False by (intros H; by apply H).
  by rewrite filter_nil.
Qed.



(* ===================================================================== *)
(** ** [debounce] *)
(* ===================================================================== *)

Section DebounceFacts.
Context {Args S : Type}.
Variable func : Args -> S -> S * completion unit.
Variable wait : Z.

Implicit Types (w : @Debounce.dworld Args S) (a : Args) (c : Z * Args).

(** The timers of [debounce] settle: [later] arms nothing. *)
Lemma debounce_timers_settle t w :
  pop_due t (queue (run_until (Debounce.fire func) t w)) = None.
Proof.
  apply run_until_settles. intros [a] w'. unfold Debounce.fire, Debounce.later.
  destruct (func a _) as [u r]. simpl.
  destruct (Debounce.timeout (state w')); simpl; [|done].
  apply length_filter.
Qed.






End DebounceFacts.

(* ===================================================================== *)
(** ** [throttle] *)
(* ===================================================================== *)

Section ThrottleFacts.
Context {Ctx Args S : Type}.
Variable func : Ctx -> Args -> S -> S * completion unit.
Variable limit : Z.

Implicit Types (w : @Throttle.tworld Ctx Args S) (c : Z * Ctx * Args).

(** The timers of [throttle] settle: reopening the gate arms nothing. *)
Lemma throttle_timers_settle t w :
  pop_due t (queue (run_until (@Throttle.fire Ctx Args S) t w)) = None.
Proof. apply run_until_settles. by intros [] w'. Qed.


Lemma throttle_call_open_throw w log u c :
  Throttle.open w log u -> clock w <= c.1.1 ->
  throws (func c.1.2 c.2 u).2 = true ->
  Throttle.open (Throttle.call_at func limit w c) (log ++ [c])
    (func c.1.2 c.2 u).1.
Proof.
  intros (Hq & Hg & Hlog & Hu) Hc Hn. unfold Throttle.call_at.
  rewrite run_until_idle by done.
  unfold Throttle.wrapper; simpl. rewrite Hg, Hu.
  destruct (func c.1.2 c.2 u) as [u' [[]|e]]; [done|]. simpl.
  rewrite Hlog. destruct c as [[t x] a]; simpl in *.
  rewrite !Z.max_r by lia. by split_and!.
Qed.




(** Around a function that does not call the wrapper, the two wrappers are
    one. *)
Lemma reentrant_on_user depth x a w :
  Throttle.reentrant limit (Datatypes.S depth) (Throttle.on_user func) x a w
  = Throttle.wrapper func limit x a w.
Proof.
  unfold Throttle.wrapper, Throttle.on_user. simpl.
  destruct (Throttle.inThrottle (state w)); [done|]. simpl.
  by destruct (func x a (Throttle.user (state w))) as [u [[]|e]].
Qed.


End ThrottleFacts.


(** The same burst observed before the wait is over: nothing has run. *)
Example debounce_not_before_wait :
  Debounce.calls_of
    (run_until (Debounce.fire SmallHost.recorder) 189
       (Debounce.play SmallHost.recorder 100
          [(0, "a"); (30, "b"); (90, "c")]
          (Debounce.debounce 0 [])))
  = [].
Proof. reflexivity. Qed.




(* ===================================================================== *)
(** ** Safe selectors *)
(* ===================================================================== *)

Section SelectorFacts.
Import Page.
Variable querySelectorAll : string -> gmap node element -> completion (list node).

Lemma safeSelect_eq s p :
  safeSelect querySelectorAll s p
  = match querySelectorAll s (dom p) with
    | Normal l => (p, Normal (head l))
    | Throw _ =>
        (console_log "warn" ("Invalid selector: " +:+ s) p, Normal None)
    end.
Proof.
  unfold safeSelect, try_catch, querySelector.
  by destruct (querySelectorAll s (dom p)).
Qed.

Lemma safeSelectAll_eq s p :
  safeSelectAll querySelectorAll s p
  = match querySelectorAll s (dom p) with
    | Normal l => (p, Normal l)
    | Throw _ =>
        (console_log "warn" ("Invalid selector: " +:+ s) p, Normal [])
    end.
Proof.
  unfold safeSelectAll, try_catch.
  by destruct (querySelectorAll s (dom p)).
Qed.

(** C6. [safeSelect] and [safeSelectAll] never throw.  For a selector the
    engine rejects they log the warning and return [null] and the empty
    list; otherwise they return what the query returns (the first match or
    [null]; all matches) and leave the page as it is. *)
Theorem safeSelect_never_throws s p :
  let r := safeSelect querySelectorAll s p in
  let rs := safeSelectAll querySelectorAll s p in
  throws r.2 = false /\ throws rs.2 = false
  /\ match querySelectorAll s (dom p) with
     | Throw _ =>
         let p' := console_log "warn" ("Invalid selector: " +:+ s) p in
         r = (p', Normal None) /\ rs = (p', Normal [])
         /\ console p' = console p ++ [("warn", "Invalid selector: " +:+ s)]
     | Normal l =>
         r = (p, Normal (head l)) /\ rs = (p, Normal l)
     end.
Proof.
  cbv zeta. rewrite safeSelect_eq, safeSelectAll_eq.
  by destruct (querySelectorAll s (dom p)).
Qed.

End SelectorFacts.

Example safeSelect_invalid :
  (Page.safeSelect SmallHost.querySelectorAll "#" SmallHost.sample).2
  = Normal None
  /\ Page.console
       (Page.safeSelect SmallHost.querySelectorAll "#" SmallHost.sample).1
     = [("warn", "Invalid selector: #")].
Proof. by vm_compute. Qed.

(* ===================================================================== *)
(** ** Functions attached to [window] *)
(* ===================================================================== *)

(** C7. The bucket of every width, and the five widths at the borders. *)
Theorem getScreenSize_buckets (p : Page.page) :
  let w := Page.innerWidth p in
  (w < 576 -> Page.getScreenSize p = "xs")
  /\ (576 <= w < 768 -> Page.getScreenSize p = "sm")
  /\ (768 <= w < 992 -> Page.getScreenSize p = "md")
  /\ (992 <= w < 1200 -> Page.getScreenSize p = "lg")
  /\ (1200 <= w -> Page.getScreenSize p = "xl")
  /\ (w = 575 -> Page.getScreenSize p = "xs")
  /\ (w = 767 -> Page.getScreenSize p = "sm")
  /\ (w = 991 -> Page.getScreenSize p = "md")
  /\ (w = 1199 -> Page.getScreenSize p = "lg")
  /\ (w = 1200 -> Page.getScreenSize p = "xl").
Proof.
  unfold Page.getScreenSize. cbv zeta.
  destruct (Z.ltb_spec (Page.innerWidth p) 576);
    destruct (Z.ltb_spec (Page.innerWidth p) 768);
    destruct (Z.ltb_spec (Page.innerWidth p) 992);
    destruct (Z.ltb_spec (Page.innerWidth p) 1200);
    split_and!; intros; (done || lia).
Qed.

Lemma getScreenSize_buckets_witness :
  Page.getScreenSize (SmallHost.sized 575) = "xs"
  /\ Page.getScreenSize (SmallHost.sized 767) = "sm"
  /\ Page.getScreenSize (SmallHost.sized 991) = "md"
  /\ Page.getScreenSize (SmallHost.sized 1199) = "lg"
  /\ Page.getScreenSize (SmallHost.sized 1200) = "xl".
Proof.
  split_and!.
  - apply (getScreenSize_buckets (SmallHost.sized 575)). simpl; lia.
  - apply (getScreenSize_buckets (SmallHost.sized 767)). simpl; lia.
  - apply (getScreenSize_buckets (SmallHost.sized 991)). simpl; lia.
  - apply (getScreenSize_buckets (SmallHost.sized 1199)). simpl; lia.
  - apply (getScreenSize_buckets (SmallHost.sized 1200)). simpl; lia.
Defined.

(** C10. [scrollToTop] never throws.  Where the engine accepts the options
    object, the smooth scroll to the top is what was asked; where it throws,
    the call [scrollTo(0, 0)] is made instead. *)
Theorem scrollToTop_never_throws (scrollTo_options_error : option exn)
    (p : Page.page) :
  let r := Page.scrollToTop scrollTo_options_error p in
  throws r.2 = false
  /\ r.1 = match scrollTo_options_error with
           | None => Page.ask (Page.ScrollToOptions 0 "smooth") p
           | Some _ => Page.ask (Page.ScrollToXY 0 0) p
           end
  /\ ((Page.scrollTo_options scrollTo_options_error 0 "smooth" p).2
        = Normal tt
      \/ r = Page.scrollTo_xy 0 0
               (Page.scrollTo_options scrollTo_options_error 0 "smooth" p).1).
Proof.
  unfold Page.scrollToTop, try_catch, Page.scrollTo_options.
  destruct scrollTo_options_error as [e|]; simpl; split_and!; auto.
Qed.

(* ===================================================================== *)
(** ** Anchor links *)
(* ===================================================================== *)

Section AnchorFacts.
Import Page.
Variable querySelectorAll : string -> gmap node element -> completion (list node).
Variable contains : node -> node -> bool.
Variable has_IntersectionObserver : bool.
Variable px : Z -> string.
Variable setProperty_error : option exn.
Variable documentElement : node.

(** [setViewportHeight] returns; it writes [--vh] on the root element, or
    logs the one warning. *)
Lemma setViewportHeight_eq p :
  setViewportHeight px setProperty_error documentElement p
  = (match setProperty_error with
     | None =>
         update_element documentElement
           (set_style "--vh" (px (innerHeight p))) p
     | Some e =>
         console_log "warn" ("Could not set viewport height: " +:+ e) p
     end, Normal tt).
Proof.
  unfold setViewportHeight, try_catch, setProperty_root,
    mbind, M_bind, bind, gets, lift.
  by destruct setProperty_error.
Qed.

(** The ready callback binds [anchorLinks] to what the anchor selector
    matches when it runs. *)
Lemma ready_callback_anchorLinks p0 p0' w l :
  ready_callback querySelectorAll has_IntersectionObserver
    px setProperty_error documentElement p0 = (p0', Normal w) ->
  querySelectorAll anchor_selector (dom p0) = Normal l ->
  anchorLinks w = l.
Proof.
  intros H Hl. unfold ready_callback in H.
  unfold mbind, M_bind, bind, mret, M_ret, ret, lift in H.
  rewrite safeSelectAll_eq, Hl in H.
  repeat match type of H with
         | context [safeSelect ?q ?s ?p] =>
             rewrite (safeSelect_eq q s p) in H;
             destruct (q s (dom p)); simpl in H
         end.
  all: rewrite setViewportHeight_eq in H; simpl in H.
  all: destruct has_IntersectionObserver;
    repeat match type of H with
           | context [safeSelectAll ?q ?s ?p] =>
               rewrite (safeSelectAll_eq q s p) in H;
               destruct (q s (dom p)); simpl in H
           end;
    by simplify_eq.
Qed.

Lemma anchor_click_eq a p :
  anchor_click querySelectorAll a p
  = (match querySelectorAll (to_selector (getAttribute a "href" p)) (dom p) with
     | Normal (t :: _) =>
         ask (ScrollIntoView t "smooth" "start") (set_defaultPrevented true p)
     | Normal [] => set_defaultPrevented true p
     | Throw _ =>
         console_log "warn"
           ("Invalid selector: " +:+ to_selector (getAttribute a "href" p))
           (set_defaultPrevented true p)
     end, Normal tt).
Proof.
  unfold anchor_click, mbind, M_bind, bind, mret, M_ret, ret, lift, gets.
  rewrite safeSelect_eq. simpl.
  change (getAttribute a "href" (set_defaultPrevented true p))
    with (getAttribute a "href" p).
  by destruct (querySelectorAll _ (dom p)) as [[|t l]|e].
Qed.

Lemma anchor_click_effect a p :
  let r := (anchor_click querySelectorAll a p).1 in
  defaultPrevented r = true
  /\ (requests r = requests p
      \/ exists t, requests r = requests p ++ [ScrollIntoView t "smooth" "start"]).
Proof.
  cbv zeta. rewrite anchor_click_eq. simpl.
  destruct (querySelectorAll _ _) as [[|t l']|e]; simpl; eauto.
Qed.

Lemma outside_click_requests w t p :
  requests (outside_click contains w t p) = requests p
  /\ defaultPrevented (outside_click contains w t p) = defaultPrevented p.
Proof.
  unfold outside_click.
  destruct (menuToggle w), (mobileMenu w); try done.
  by destruct (_ && _).
Qed.

(** The ready callback returns: none of its lookups throws. *)
Lemma ready_callback_returns p0 :
  exists p0' w,
    ready_callback querySelectorAll has_IntersectionObserver
      px setProperty_error documentElement p0 = (p0', Normal w).
Proof.
  unfold ready_callback, mbind, M_bind, bind, mret, M_ret, ret, lift.
  rewrite safeSelectAll_eq.
  destruct (querySelectorAll anchor_selector (dom p0)); simpl.
  all: repeat match goal with
         | |- context [safeSelect ?q ?s ?p] =>
             rewrite (safeSelect_eq q s p);
             destruct (q s (dom p)); simpl
         end.
  all: rewrite setViewportHeight_eq; simpl.
  all: destruct has_IntersectionObserver;
    repeat match goal with
           | |- context [safeSelectAll ?q ?s ?p] =>
               rewrite (safeSelectAll_eq q s p);
               destruct (q s (dom p)); simpl
           end;
    eauto.
Qed.

(** C5. A link the anchor selector matched when the ready callback ran has
    the click listener.  The listener never throws, always suppresses the
    default action, looks the [href] up with [safeSelect], and asks for the
    smooth scroll to the top of the target when there is one; when there is
    none it asks for nothing: the page is as [safeSelect] left it, with the
    same document and the same requests as before the click.  The host does
    not follow the link. *)
Theorem anchor_click_scrolls_to_target p0 p0' w l a p :
  ready_callback querySelectorAll has_IntersectionObserver
    px setProperty_error documentElement p0 = (p0', Normal w) ->
  querySelectorAll anchor_selector (dom p0) = Normal l ->
  a ∈ l ->
  let href := to_selector (getAttribute a "href" p) in
  let found := safeSelect querySelectorAll href (set_defaultPrevented true p) in
  let r := anchor_click querySelectorAll a p in
  a ∈ anchorLinks w
  /\ r.2 = Normal tt
  /\ defaultPrevented r.1 = true
  /\ r.1 = match found.2 with
           | Normal (Some t) => ask (ScrollIntoView t "smooth" "start") found.1
           | _ => found.1
           end
  /\ requests found.1 = requests p
  /\ dom found.1 = dom p
  /\ (forall h,
        FollowLink h ∈ requests (click_link querySelectorAll contains w a p) ->
        FollowLink h ∈ requests p).
Proof.
  intros Hr Hl Ha. cbv zeta.
  rewrite (ready_callback_anchorLinks _ _ _ _ Hr Hl).
  split; [done|].
  rewrite anchor_click_eq, safeSelect_eq. simpl.
  split; [done|].
  split; [by destruct (querySelectorAll _ (dom p)) as [[|t l']|e]|].
  split; [by destruct (querySelectorAll _ (dom p)) as [[|t l']|e]|].
  split; [by destruct (querySelectorAll _ (dom p)) as [[|t l']|e]|].
  split; [by destruct (querySelectorAll _ (dom p)) as [[|t l']|e]|].
  intros h. unfold click_link.
  rewrite (ready_callback_anchorLinks _ _ _ _ Hr Hl).
  rewrite bool_decide_true by done.
  set (p1 := (anchor_click querySelectorAll a (set_defaultPrevented false p)).1).
  destruct (outside_click_requests w a p1) as [Hq Hd].
  assert (defaultPrevented p1 = true
          /\ (FollowLink h ∈ requests p1 -> FollowLink h ∈ requests p))
    as [Hp1 Hf].
  { destruct (anchor_click_effect a (set_defaultPrevented false p))
      as [Hp [Hs|[t Hs]]]; fold p1 in Hp, Hs; rewrite Hs; split; try done.
    intros [?|Hin%list_elem_of_singleton]%elem_of_app; done. }
  by rewrite Hd, Hp1, Hq.
Qed.

End AnchorFacts.

Lemma anchor_click_scrolls_to_target_witness :
  let r := Page.anchor_click SmallHost.querySelectorAll 4%nat
             SmallHost.sample_ready in
  4%nat ∈ Page.anchorLinks SmallHost.sample_wiring
  /\ r.2 = Normal tt
  /\ Page.defaultPrevented r.1 = true
  /\ r.1 = Page.ask (Page.ScrollIntoView 6%nat "smooth" "start")
             (Page.set_defaultPrevented true SmallHost.sample_ready).
Proof.
  destruct (anchor_click_scrolls_to_target SmallHost.querySelectorAll
              SmallHost.contains true SmallHost.px None SmallHost.root
              SmallHost.sample
              SmallHost.sample_ready SmallHost.sample_wiring [4; 5]%nat 4%nat
              SmallHost.sample_ready)
    as (H1 & H2 & H3 & H4 & _).
  - vm_compute. reflexivity.
  - vm_compute. reflexivity.
  - apply list_elem_of_In. simpl. tauto.
  - split_and!; [exact H1|exact H2|exact H3|exact H4].
Defined.

(* ===================================================================== *)
(** ** Scroll effects *)
(* ===================================================================== *)

Section ScrollFacts.
Import Page.

Lemma lookup_update_element n f p m :
  dom (update_element n f p) !! m
  = if decide (n = m) then f <$> dom p !! m else dom p !! m.
Proof.
  unfold update_element. simpl. rewrite lookup_alter. by case_decide; subst.
Qed.

Lemma js_gt_spec y k :
  js_gt (Some y) k = true <-> (k < y)%Q.
Proof.
  unfold js_gt. rewrite negb_true_iff, <- not_true_iff_false, Qle_bool_iff.
  split; [apply Qnot_le_lt|apply Qlt_not_le].
Qed.

Lemma styled_elevated e : styled elevated (set_styles elevated e).
Proof. repeat constructor; simpl; by simplify_map_eq. Qed.

Lemma styled_base e : styled base (set_styles base e).
Proof. repeat constructor; simpl; by simplify_map_eq. Qed.

Lemma visible_added l : "visible" ∈ classList_add "visible" l.
Proof.
  unfold classList_add, classList_contains. case_bool_decide; [done|].
  apply elem_of_app. right. by apply list_elem_of_singleton.
Qed.

Lemma visible_removed l : "visible" ∉ classList_remove "visible" l.
Proof. unfold classList_remove. rewrite list_elem_of_filter. by intros [? ?]. Qed.

Variable w : wiring.

(** What the function handed to [throttle] does to the header. *)
Lemma scroll_body_header_style p h e :
  header w = Some h -> dom p !! h = Some e ->
  exists e', dom (scroll_body w p) !! h = Some e'
    /\ style e'
       = style (set_styles (if js_gt (offset_read p) (100 # 1)
                            then elevated else base) e).
Proof.
  intros Hh He. unfold scroll_body. rewrite Hh.
  set (l := if js_gt (offset_read p) (100 # 1) then elevated else base).
  set (p1 := if js_gt (offset_read p) (100 # 1)
             then update_element h (set_styles elevated) p
             else update_element h (set_styles base) p).
  assert (dom p1 !! h = Some (set_styles l e)) as Hp1.
  { subst p1 l. destruct (js_gt (offset_read p) (100 # 1));
      by rewrite lookup_update_element, decide_True, He by done. }
  destruct (scrollTopBtn w) as [b|]; [|eauto].
  destruct (js_gt (offset_read p) (500 # 1));
    rewrite lookup_update_element; case_decide; rewrite Hp1; simpl; eauto.
Qed.

Lemma scroll_body_header p y h e :
  offset_read p = Some y -> header w = Some h -> dom p !! h = Some e ->
  exists e', dom (scroll_body w p) !! h = Some e'
    /\ ((100 # 1 < y)%Q -> styled elevated e')
    /\ ((y <= 100 # 1)%Q -> styled base e').
Proof.
  intros Hy Hh He.
  destruct (scroll_body_header_style p h e Hh He) as (e' & He' & Hst).
  exists e'. split; [done|]. rewrite Hy in Hst. unfold styled. rewrite Hst.
  destruct (js_gt (Some y) (100 # 1)) eqn:Hgt.
  - apply js_gt_spec in Hgt. split; [intros _; apply styled_elevated|].
    intros Hle. by apply Qlt_not_le in Hgt.
  - apply not_true_iff_false in Hgt. rewrite js_gt_spec in Hgt.
    split; [done|]. intros _. apply styled_base.
Qed.

(** What it does to the scroll-to-top button. *)
Lemma scroll_body_button p y b e :
  offset_read p = Some y -> scrollTopBtn w = Some b -> dom p !! b = Some e ->
  exists e', dom (scroll_body w p) !! b = Some e'
    /\ ("visible" ∈ classList e' <-> (500 # 1 < y)%Q).
Proof.
  intros Hy Hb He. unfold scroll_body. rewrite Hy, Hb.
  assert (exists e0, dom (match header w with
                          | Some h =>
                              if js_gt (Some y) (100 # 1)
                              then update_element h (set_styles elevated) p
                              else update_element h (set_styles base) p
                          | None => p
                          end) !! b = Some e0) as [e0 He0].
  { destruct (header w) as [h|]; [|eauto].
    destruct (js_gt (Some y) (100 # 1));
      rewrite lookup_update_element; case_decide; rewrite He; eauto. }
  destruct (js_gt (Some y) (500 # 1)) eqn:Hgt;
    rewrite lookup_update_element, decide_True, He0 by done; simpl;
    eexists; (split; [done|]); simpl.
  - apply js_gt_spec in Hgt. split; [done|]. intros _. apply visible_added.
  - apply not_true_iff_false in Hgt. rewrite js_gt_spec in Hgt.
    split; [|done]. intros Hin. by apply visible_removed in Hin.
Qed.

(** C4, as the code has it.  An invocation of the throttled scroll handler
    that finds the gate open, with the viewport at offset [y], leaves the
    header (when the page has one) in the elevated style if [y > 100] and in
    the base style otherwise, and the scroll-to-top button (when the page has
    one) with the class ["visible"] if [y > 500] and without it otherwise;
    it closes the gate.  An invocation that finds the gate closed changes
    nothing. *)
Theorem handleScroll_applies_thresholds (tw : Throttle.tworld) (y : Q) :
  let p := Throttle.user (state tw) in
  let tw' := (handleScroll w tw).1 in
  let p' := Throttle.user (state tw') in
  offset_read p = Some y ->
  (Throttle.inThrottle (state tw) = true -> tw' = tw)
  /\ (Throttle.inThrottle (state tw) = false ->
      Throttle.inThrottle (state tw') = true
      /\ (forall h e, header w = Some h -> dom p !! h = Some e ->
          exists e', dom p' !! h = Some e'
            /\ ((100 # 1 < y)%Q -> styled elevated e')
            /\ ((y <= 100 # 1)%Q -> styled base e'))
      /\ (forall b e, scrollTopBtn w = Some b -> dom p !! b = Some e ->
          exists e', dom p' !! b = Some e'
            /\ ("visible" ∈ classList e' <-> (500 # 1 < y)%Q))).
Proof.
  cbv zeta. intros Hy. unfold handleScroll, Throttle.wrapper, scroll_func, lift.
  split; intros Hg; rewrite Hg; [done|]. simpl.
  split_and!; [done| |].
  - intros h e. by apply scroll_body_header.
  - intros b e. by apply scroll_body_button.
Qed.

(** Events more than 16 ms apart all find the gate open: the throttled
    handler then does what its body does on every event. *)
Lemma scroll_event_open tw ev log p :
  Throttle.open tw log p -> clock tw <= ev.1 ->
  exists log',
    Throttle.closed 16 (scroll_event w tw ev) ev.1 log' (unthrottled w p ev).
Proof.
  intros (Hq & Hg & Hlog & Hu) Hc. unfold scroll_event, handleScroll.
  rewrite run_until_idle by done.
  unfold Throttle.wrapper, Throttle.with_user. simpl. rewrite Hg, Hu. simpl.
  eexists. exists (next_id (queue tw)). rewrite Hq. simpl.
  rewrite !Z.max_r by lia. split_and!; (done || lia).
Qed.

Lemma scroll_event_reopened tw tc ev log p :
  Throttle.closed 16 tw tc log p -> tc + 16 < ev.1 ->
  exists log',
    Throttle.closed 16 (scroll_event w tw ev) ev.1 log' (unthrottled w p ev).
Proof.
  intros (h & Hq & Hg & Hcl & Hlog & Hu) Hc. unfold scroll_event, handleScroll.
  rewrite (run_until_due _ _ _ _ Hq) by (simpl; lia).
  unfold Throttle.wrapper, Throttle.with_user. simpl. rewrite Hu. simpl.
  replace (Z.max (Z.max (clock tw) (tc + 16)) ev.1) with ev.1 by lia.
  eexists. eexists. split_and!; simpl; (done || lia).
Qed.

Lemma scroll_events_spaced rest : forall tw tc log p,
  Throttle.closed 16 tw tc log p -> spaced 16 tc rest ->
  Throttle.user (state (foldl (scroll_event w) tw rest))
  = foldl (unthrottled w) p rest.
Proof.
  induction rest as [|ev rest IH]; intros tw tc log p Hc Hs.
  - by destruct Hc as (h & _ & _ & _ & _ & ?).
  - destruct Hs as [Hev Hs]. simpl.
    destruct (scroll_event_reopened _ _ _ _ _ Hc Hev) as [log' Hc'].
    by apply (IH _ _ _ _ Hc').
Qed.

Lemma scroll_spaced_is_unthrottled t0 p0 ev rest :
  t0 <= ev.1 -> spaced 16 ev.1 rest ->
  Throttle.user (state (foldl (scroll_event w) (scroll_world t0 p0) (ev :: rest)))
  = foldl (unthrottled w) p0 (ev :: rest).
Proof.
  intros Ht Hs. simpl.
  destruct (scroll_event_open (scroll_world t0 p0) ev [] p0) as [log' Hc];
    [done..|].
  by apply (scroll_events_spaced _ _ _ _ _ Hc).
Qed.

End ScrollFacts.

Lemma handleScroll_applies_thresholds_witness :
  let tw := Throttle.with_user (Page.scrolled (150 # 1))
              (Page.scroll_world 0 SmallHost.sample_ready) in
  let p' := Throttle.user
              (state (Page.handleScroll SmallHost.sample_wiring tw).1) in
  exists e', Page.dom p' !! 1%nat = Some e' /\ Page.styled Page.elevated e'.
Proof.
  intros tw p'.
  destruct (handleScroll_applies_thresholds SmallHost.sample_wiring tw (150 # 1))
    as [_ H]; [reflexivity|].
  destruct (H eq_refl) as (_ & Hh & _).
  destruct (Hh 1%nat (SmallHost.el "header" [] []) eq_refl eq_refl)
    as (e' & He' & Hup & _).
  exists e'. split; [exact He'|]. apply Hup. unfold Qlt. simpl. lia.
Defined.

(** The offsets of the specification, 100 ms apart: 0, 150, 600, back to 0. *)
Example scroll_offsets_spaced :
  (SmallHost.header_background (SmallHost.scroll_run [(0, 0 # 1)]),
   SmallHost.button_visible (SmallHost.scroll_run [(0, 0 # 1)]))
  = (Some "linear-gradient(90deg, #f291b6, #e4b7cf)", false)
  /\ SmallHost.header_background
       (SmallHost.scroll_run [(0, 0 # 1); (100, 150 # 1)])
     = Some "linear-gradient(90deg, rgba(242, 145, 182, 0.95), rgba(228, 183, 207, 0.95))"
  /\ SmallHost.button_visible
       (SmallHost.scroll_run [(0, 0 # 1); (100, 150 # 1); (200, 600 # 1)])
     = true
  /\ (SmallHost.header_background
        (SmallHost.scroll_run
           [(0, 0 # 1); (100, 150 # 1); (200, 600 # 1); (300, 0 # 1)]),
      SmallHost.button_visible
        (SmallHost.scroll_run
           [(0, 0 # 1); (100, 150 # 1); (200, 600 # 1); (300, 0 # 1)]))
     = (Some "linear-gradient(90deg, #f291b6, #e4b7cf)", false).
Proof. by vm_compute. Qed.

(** C4 as stated fails for an invocation the throttle drops: the viewport
    goes to 600 and, 5 ms later, back to 0; the second invocation finds the
    gate closed, and the header stays elevated and the button visible with
    the viewport at 0. *)
Lemma handleScroll_gated_invocation_reverts_nothing :
  let tw := SmallHost.scroll_run [(0, 600 # 1); (5, 0 # 1)] in
  Page.offset_read (Throttle.user (state tw)) = Some (0 # 1)
  /\ SmallHost.header_background tw
     = Some "linear-gradient(90deg, rgba(242, 145, 182, 0.95), rgba(228, 183, 207, 0.95))"
  /\ SmallHost.header_background tw
     <> Some "linear-gradient(90deg, #f291b6, #e4b7cf)"
  /\ SmallHost.button_visible tw = true.
Proof. by vm_compute. Qed.

(* ===================================================================== *)
(** ** Mobile menu *)
(* ===================================================================== *)

Section MenuFacts.
Import Page.
Variable querySelectorAll : string -> gmap node element -> completion (list node).
Variable contains : node -> node -> bool.

Lemma classList_remove_idemp tok l :
  classList_remove tok (classList_remove tok l) = classList_remove tok l.
Proof.
  unfold classList_remove. induction l as [|c l IH]; [done|].
  rewrite filter_cons. case_decide; [|done].
  rewrite filter_cons, decide_True by done. by rewrite IH.
Qed.

Lemma classList_remove_absent tok l :
  tok ∉ l -> classList_remove tok l = l.
Proof.
  unfold classList_remove. induction l as [|c l IH]; [done|].
  intros [Hc Hl]%not_elem_of_cons.
  rewrite filter_cons, decide_True by done. by rewrite IH.
Qed.

Lemma not_in_classList_remove tok l : tok ∉ classList_remove tok l.
Proof. unfold classList_remove. rewrite list_elem_of_filter. by intros [? ?]. Qed.

Lemma deactivate_idemp m p : deactivate m (deactivate m p) = deactivate m p.
Proof.
  unfold deactivate, update_element, with_dom. simpl. f_equal.
  apply map_eq. intros n. destruct (decide (m = n)) as [<-|Hne].
  - rewrite !lookup_alter_eq. destruct (dom p !! m) as [e|]; [|done]. simpl.
    unfold with_classList. simpl. by rewrite classList_remove_idemp.
  - by rewrite !lookup_alter_ne.
Qed.

Lemma deactivate_inactive m p :
  has_class m "active" p = false -> dom (deactivate m p) = dom p.
Proof.
  unfold has_class, deactivate, update_element. simpl. intros H.
  apply alter_id. intros e He. rewrite He in H.
  unfold classList_contains in H. apply bool_decide_eq_false in H.
  destruct e. unfold with_classList. simpl in *.
  by rewrite classList_remove_absent.
Qed.

Lemma has_class_deactivate m p : has_class m "active" (deactivate m p) = false.
Proof.
  unfold has_class, deactivate. rewrite lookup_update_element, decide_True by done.
  destruct (dom p !! m) as [e|]; [|done]. simpl.
  apply bool_decide_eq_false, not_in_classList_remove.
Qed.

Lemma only_deactivated_refl p : only_deactivated p p.
Proof. intros n. by left. Qed.

Lemma only_deactivated_deactivate m p : only_deactivated p (deactivate m p).
Proof.
  intros n. unfold deactivate. rewrite lookup_update_element.
  case_decide; [by right|by left].
Qed.

Lemma closeMobileMenu_eq p :
  closeMobileMenu querySelectorAll p
  = (match querySelector querySelectorAll "#mobileMenu" (dom p) with
     | Normal (Some m) => deactivate m p
     | Normal None => p
     | Throw _ => console_log "warn" "Invalid selector: #mobileMenu" p
     end, Normal tt).
Proof.
  unfold closeMobileMenu, mbind, M_bind, bind, mret, M_ret, ret, lift.
  rewrite safeSelect_eq. unfold querySelector.
  by destruct (querySelectorAll _ _) as [[|m l]|e].
Qed.

Lemma outside_click_cases w t p :
  outside_click contains w t p = p
  \/ exists m, mobileMenu w = Some m
               /\ outside_click contains w t p = deactivate m p.
Proof.
  unfold outside_click.
  destruct (menuToggle w), (mobileMenu w) as [m|]; auto.
  destruct (_ && _); eauto.
Qed.

Lemma outside_click_idemp w t p :
  outside_click contains w t (outside_click contains w t p)
  = outside_click contains w t p.
Proof.
  unfold outside_click.
  destruct (menuToggle w), (mobileMenu w) as [m|]; auto.
  destruct (_ && _); [apply deactivate_idemp|done].
Qed.

Lemma handleKeyboardNavigation_idemp w key p :
  handleKeyboardNavigation w key (handleKeyboardNavigation w key p)
  = handleKeyboardNavigation w key p.
Proof.
  unfold handleKeyboardNavigation.
  destruct (mobileMenu w) as [m|]; [|done].
  destruct (String.eqb key "Escape" && has_class m "active" p) eqn:Hc;
    [|by rewrite Hc].
  fold (deactivate m p).
  assert (forall tg, has_class m "active" (focus tg (deactivate m p)) = false)
    as Hf by (intros tg; apply has_class_deactivate).
  destruct (menuToggle w) as [tg|];
    by rewrite ?Hf, ?has_class_deactivate, andb_false_r.
Qed.

Lemma handleKeyboardNavigation_only_deactivates w key p :
  only_deactivated p (handleKeyboardNavigation w key p).
Proof.
  unfold handleKeyboardNavigation.
  destruct (mobileMenu w) as [m|]; [|apply only_deactivated_refl].
  destruct (_ && _); [|apply only_deactivated_refl].
  destruct (menuToggle w); apply only_deactivated_deactivate.
Qed.

(** C8.  The three ways to dismiss the menu are idempotent, leave a menu
    without ["active"] as it is, and never do more to a class list than take
    ["active"] out of it.  [closeMobileMenu] looks the menu up on every call:
    its second call does what the first did as long as [#mobileMenu] still
    selects the same node. *)
Theorem menu_dismissal_idempotent (w : wiring) (target : node) (key : string)
    (p : page) :
  let close := fun p => (closeMobileMenu querySelectorAll p).1 in
  let oc := outside_click contains w target in
  let hk := handleKeyboardNavigation w key in
  let menu := querySelector querySelectorAll "#mobileMenu" in
  (menu (dom (close p)) = menu (dom p) -> dom (close (close p)) = dom (close p))
  /\ ((forall m, menu (dom p) = Normal (Some m) -> has_class m "active" p = false) ->
      dom (close p) = dom p)
  /\ oc (oc p) = oc p
  /\ hk (hk p) = hk p
  /\ ((forall m, mobileMenu w = Some m -> has_class m "active" p = false) ->
      dom (oc p) = dom p /\ hk p = p)
  /\ only_deactivated p (close p)
  /\ only_deactivated p (oc p)
  /\ only_deactivated p (hk p).
Proof.
  cbv zeta. split_and!.
  - rewrite !closeMobileMenu_eq. simpl. intros Hsame.
    destruct (querySelector querySelectorAll "#mobileMenu" (dom p))
      as [[m|]|e] eqn:Hq; rewrite Hsame; [|done..].
    by rewrite deactivate_idemp.
  - rewrite closeMobileMenu_eq. simpl. intros Hin.
    destruct (querySelector querySelectorAll "#mobileMenu" (dom p))
      as [[m|]|e]; [|done..].
    by apply deactivate_inactive, Hin.
  - apply outside_click_idemp.
  - apply handleKeyboardNavigation_idemp.
  - intros Hin. split.
    + destruct (outside_click_cases w target p) as [->|(m & Hm & ->)]; [done|].
      by apply deactivate_inactive, Hin.
    + unfold handleKeyboardNavigation.
      destruct (mobileMenu w) as [m|]; [|done].
      by rewrite (Hin m), andb_false_r.
  - rewrite closeMobileMenu_eq. simpl.
    destruct (querySelector querySelectorAll "#mobileMenu" (dom p))
      as [[m|]|e];
      [apply only_deactivated_deactivate|apply only_deactivated_refl|].
    intros n. by left.
  - destruct (outside_click_cases w target p) as [->|(m & Hm & ->)];
      [apply only_deactivated_refl|apply only_deactivated_deactivate].
  - apply handleKeyboardNavigation_only_deactivates.
Qed.

End MenuFacts.

(** On the sample page the menu is open: closing it twice is closing it once,
    and a closed menu stays as it is. *)
Lemma menu_dismissal_idempotent_witness :
  let close := fun p => (Page.closeMobileMenu SmallHost.querySelectorAll p).1 in
  Page.dom (close (close SmallHost.sample)) = Page.dom (close SmallHost.sample)
  /\ Page.dom (close (close (close SmallHost.sample)))
     = Page.dom (close (close SmallHost.sample))
  /\ Page.has_class 3%nat "active" SmallHost.sample = true
  /\ Page.has_class 3%nat "active" (close SmallHost.sample) = false.
Proof.
  intros close. split_and!.
  - apply (proj1 (menu_dismissal_idempotent SmallHost.querySelectorAll
                    SmallHost.contains SmallHost.sample_wiring 4%nat "Escape"
                    SmallHost.sample)).
    vm_compute. reflexivity.
  - apply (proj1 (menu_dismissal_idempotent SmallHost.querySelectorAll
                    SmallHost.contains SmallHost.sample_wiring 4%nat "Escape"
                    (close SmallHost.sample))).
    vm_compute. reflexivity.
  - vm_compute. reflexivity.
  - vm_compute. reflexivity.
Defined.


(* ===================================================================== *)
(** ** Lazy images *)
(* ===================================================================== *)

Section LazyFacts.
Import Page.
Variables (img : node) (s : string).
Hypothesis s_nonempty : s ≠ EmptyString.

Lemma watched_unobserve n p :
  watched (unobserve n p) = filter (fun m => m ≠ n) (watched p).
Proof.
  unfold watched, unobserve. destruct (imageObserver p) eqn:Ho; simpl.
  - done.
  - by rewrite Ho.
Qed.

Lemma watched_image_entry p e n :
  n ∈ watched (image_entry p e) -> n ∈ watched p.
Proof.
  unfold image_entry. destruct (isIntersecting e); [|done].
  destruct (truthy _); [|done].
  rewrite watched_unobserve, list_elem_of_filter. by intros [_ ?].
Qed.

Lemma image_entry_other p e :
  target e ≠ img -> dom (image_entry p e) !! img = dom p !! img.
Proof.
  intros Hne. unfold image_entry. destruct (isIntersecting e); [|done].
  destruct (truthy _); [|done].
  assert (dom (unobserve (target e)
                 (update_element (target e)
                    (with_classList (classList_remove "lazy"))
                    (update_element (target e)
                       (set_attr "src"
                          (default EmptyString (getAttribute (target e) "data-src" p)))
                       p)))
          = alter (with_classList (classList_remove "lazy")) (target e)
              (alter (set_attr "src"
                        (default EmptyString (getAttribute (target e) "data-src" p)))
                 (target e) (dom p))) as ->
    by (unfold unobserve; by destruct (imageObserver _)).
  by rewrite !lookup_alter_ne.
Qed.

(** An intersecting entry for the image, while it carries its source. *)
Lemma image_entry_upgrades p :
  deferred img s p ->
  settled img s (image_entry p {| isIntersecting := true; target := img |}).
Proof.
  intros (e & He & Hs). unfold image_entry, getAttribute. simpl.
  rewrite He. simpl. rewrite Hs. simpl.
  rewrite bool_decide_true by done.
  exists (with_classList (classList_remove "lazy") (set_attr "src" s e)).
  split_and!.
  - unfold unobserve. destruct (imageObserver _); simpl;
      by rewrite !lookup_alter_eq, He.
  - simpl. by rewrite lookup_insert_ne.
  - simpl. by rewrite lookup_insert_eq.
  - simpl. apply not_in_classList_remove.
  - rewrite watched_unobserve, list_elem_of_filter. by intros [? _].
Qed.

Lemma image_entry_deferred p e : deferred img s p -> deferred img s (image_entry p e).
Proof.
  intros Hd. destruct (decide (target e = img)) as [Ht|Ht].
  - destruct e as [[] t]; simpl in Ht; subst; [|done].
    destruct (image_entry_upgrades p Hd) as (e' & ? & ? & _). by exists e'.
  - destruct Hd as (e0 & He0 & Hs). exists e0.
    by rewrite image_entry_other.
Qed.

Lemma image_entry_settled p e : settled img s p -> settled img s (image_entry p e).
Proof.
  intros (e0 & He0 & Hs & Hsrc & Hl & Hw).
  destruct (decide (target e = img)) as [Ht|Ht].
  - destruct e as [[] t]; simpl in Ht; subst; [|by exists e0].
    apply image_entry_upgrades. by exists e0.
  - exists e0. rewrite image_entry_other by done. split_and!; try done.
    intros Hin. by apply Hw, (watched_image_entry p e).
Qed.

Lemma image_callback_settled entries p :
  settled img s p -> settled img s (image_callback entries p).
Proof.
  revert p. induction entries as [|e l IH]; intros p Hp; [done|].
  simpl. by apply IH, image_entry_settled.
Qed.

Lemma image_callback_upgrades entries p :
  deferred img s p ->
  {| isIntersecting := true; target := img |} ∈ entries ->
  settled img s (image_callback entries p).
Proof.
  revert p. induction entries as [|e l IH]; intros p Hp Hin.
  - by apply elem_of_nil in Hin.
  - apply elem_of_cons in Hin as [<-|Hin]; simpl.
    + by apply image_callback_settled, image_entry_upgrades.
    + by apply IH; [apply image_entry_deferred|].
Qed.

(** Entries for other nodes leave the image alone. *)
Lemma image_callback_other entries p :
  Forall (fun e => target e ≠ img) entries ->
  dom (image_callback entries p) !! img = dom p !! img
  /\ ((img ∉ watched p) -> img ∉ watched (image_callback entries p)).
Proof.
  revert p. induction entries as [|e l IH]; intros p Hf; [done|].
  apply Forall_cons in Hf as [He Hf]. simpl.
  destruct (IH (image_entry p e) Hf) as [Hd Hw].
  rewrite Hd, image_entry_other by done. split; [done|].
  intros Hn. apply Hw. intros Hin. by apply Hn, (watched_image_entry p e).
Qed.

Lemma deliver_unobserved p entries p' :
  (img ∉ watched p) -> deliver p entries = Some p' ->
  (img ∉ watched p') /\ dom p' !! img = dom p !! img.
Proof.
  intros Hn. unfold deliver.
  destruct (forallb _ entries) eqn:Hall; [|done]. intros [= <-].
  assert (Forall (fun e => target e ≠ img) entries) as Hf.
  { apply Forall_forall. intros e He Ht.
    rewrite forallb_forall in Hall.
    specialize (Hall e (proj1 (list_elem_of_In _ _) He)).
    apply bool_decide_eq_true in Hall. by rewrite Ht in Hall. }
  destruct (image_callback_other entries p Hf) as [Hd Hw]. auto.
Qed.

Lemma deliveries_None batches :
  foldl (fun o b => o ≫= fun p => deliver p b) None batches = None.
Proof. by induction batches. Qed.

Lemma deliveries_unobserved batches : forall p p',
  (img ∉ watched p) -> deliveries batches p = Some p' ->
  (img ∉ watched p') /\ dom p' !! img = dom p !! img.
Proof.
  unfold deliveries.
  induction batches as [|b bs IH]; intros p p' Hn Hd.
  - by simplify_eq/=.
  - simpl in Hd. destruct (deliver p b) as [p1|] eqn:Hb;
      [|by rewrite deliveries_None in Hd].
    destruct (deliver_unobserved _ _ _ Hn Hb) as [Hn1 Hd1].
    destruct (IH _ _ Hn1 Hd) as [Hn2 Hd2]. split; [done|]. congruence.
Qed.

(** C3, as the code has it.  An image whose deferred source is not empty:
    the delivery that first reports it intersecting copies the deferred
    source into [src], takes ["lazy"] out of its class list and stops
    observing it.  No later delivery mentions the image: it stays unobserved
    and the handler does not touch it again. *)
Theorem lazy_image_upgraded_once (p p' : page) (e : element)
    (entries : list entry) :
  dom p !! img = Some e ->
  attrs e !! "data-src" = Some s ->
  deliver p entries = Some p' ->
  {| isIntersecting := true; target := img |} ∈ entries ->
  img ∈ watched p
  /\ upgraded img s p'
  /\ (img ∉ watched p')
  /\ forall batches p'',
       deliveries batches p' = Some p'' ->
       (img ∉ watched p'') /\ dom p'' !! img = dom p' !! img.
Proof.
  intros He Hs Hd Hin. unfold deliver in Hd.
  destruct (forallb _ entries) eqn:Hall; [|done]. simplify_eq.
  assert (settled img s (image_callback entries p)) as (e' & He' & _ & Hsrc & Hl & Hw)
    by (apply image_callback_upgrades; [by exists e|done]).
  split_and!.
  - rewrite forallb_forall in Hall.
    specialize (Hall _ (proj1 (list_elem_of_In _ _) Hin)).
    by apply bool_decide_eq_true in Hall.
  - by exists e'.
  - done.
  - intros batches p''. by apply deliveries_unobserved.
Qed.

End LazyFacts.

(** The first image of the sample page comes into view. *)
Lemma lazy_image_upgraded_once_witness :
  let batch := [ {| Page.isIntersecting := true; Page.target := 7%nat |} ] in
  exists p', Page.deliver SmallHost.sample_ready batch = Some p'
    /\ Page.upgraded 7%nat "photo.jpg" p'
    /\ (7%nat ∉ Page.watched p').
Proof.
  intros batch. eexists. split; [reflexivity|].
  destruct (lazy_image_upgraded_once 7%nat "photo.jpg" ltac:(done)
              SmallHost.sample_ready
              (Page.image_callback batch SmallHost.sample_ready)
              (SmallHost.el "img" ["lazy"] [("data-src", "photo.jpg")])
              batch)
    as (_ & Hup & Hw & _).
  - vm_compute. reflexivity.
  - vm_compute. reflexivity.
  - vm_compute. reflexivity.
  - left.
  - split; [exact Hup|exact Hw].
Defined.

(** C3 as stated fails in two ways.
    - An image whose deferred source is empty: the selector [img[data-src]]
      matches it and it is observed, but the guard [if (src)] skips it: no
      [src], still ["lazy"], still observed.
    - A delivery that lists an image more than once: it came into view,
      went out and came back before the callback ran.  The last entry is
      handled on the page the first one left, where the image still carries
      its deferred source; the guard holds again and the three statements of
      the upgrade run a second time.  Unobserving the image keeps it out of
      later deliveries, not out of the rest of this one. *)
Lemma lazy_image_skipped_or_upgraded_twice :
  let batch := [ {| Page.isIntersecting := true; Page.target := 8%nat |} ] in
  let p' := Page.image_callback batch SmallHost.sample_ready in
  let e := {| Page.isIntersecting := true; Page.target := 7%nat |} in
  let out := {| Page.isIntersecting := false; Page.target := 7%nat |} in
  let p1 := Page.image_entry SmallHost.sample_ready e in
  (Page.getAttribute 8%nat "data-src" SmallHost.sample_ready = Some EmptyString
   /\ 8%nat ∈ Page.watched SmallHost.sample_ready
   /\ Page.deliver SmallHost.sample_ready batch = Some p'
   /\ Page.getAttribute 8%nat "src" p' = None
   /\ Page.has_class 8%nat "lazy" p' = true
   /\ 8%nat ∈ Page.watched p')
  /\ (Page.deliver SmallHost.sample_ready [e; out; e]
      = Some (Page.image_entry (Page.image_entry p1 out) e)
      /\ Page.image_entry p1 out = p1
      /\ Page.getAttribute 7%nat "src" p1 = Some "photo.jpg"
      /\ Page.isIntersecting e
         && Page.truthy (Page.getAttribute 7%nat "data-src" p1) = true
      /\ Page.image_entry p1 e
         = Page.unobserve 7%nat
             (Page.update_element 7%nat
                (Page.with_classList (Page.classList_remove "lazy"))
                (Page.update_element 7%nat (Page.set_attr "src" "photo.jpg")
                   p1))).
Proof.
  vm_compute. split_and!; try done.
  - apply list_elem_of_In. simpl. tauto.
  - apply list_elem_of_In. simpl. tauto.
Qed.

(* ===================================================================== *)
(** ** The [closest] shim *)
(* ===================================================================== *)

Section ClosestFacts.
Import Closest.
Variable T : tree.
Variable matches : string -> node -> completion bool.

Lemma closest_loop_more s n : forall el r m,
  closest_loop T matches n s el = Some r -> (n <= m)%nat ->
  closest_loop T matches m s el = Some r.
Proof.
  induction n as [|n IH]; intros el r m Hr Hm; [done|].
  destruct m as [|m]; [lia|]. simpl in *.
  destruct (matches s el) as [[]|e]; try done.
  destruct (up T el) as [p|]; [|done].
  apply IH; [done|lia].
Qed.

Lemma unmatched_before_0 s el : unmatched_before T matches s el 0.
Proof. intros j b Hj. lia. Qed.

Lemma unmatched_before_step s el p k :
  matches s el = Normal false -> up T el = Some p ->
  unmatched_before T matches s p k ->
  unmatched_before T matches s el (S k).
Proof.
  intros Hm Hup Hp [|j] b Hj Hw; simpl in Hw.
  - by simplify_eq.
  - rewrite Hup in Hw. simpl in Hw. apply (Hp j); [lia|done].
Qed.

Lemma first_match_step s el p r :
  matches s el = Normal false -> up T el = Some p ->
  first_match T matches s p r -> first_match T matches s el r.
Proof.
  intros Hm Hup. destruct r as [[a|]|e]; simpl.
  - intros (k & Hw & Ha & Hb). exists (S k). simpl. rewrite Hup.
    eauto using unmatched_before_step.
  - intros (k & top & Hw & Ha & Hb). exists (S k), top. simpl. rewrite Hup.
    eauto using unmatched_before_step.
  - intros (k & b & Hw & Ha & Hb). exists (S k), b. simpl. rewrite Hup.
    eauto using unmatched_before_step.
Qed.

Lemma first_match_here s el :
  match matches s el with
  | Normal true => first_match T matches s el (Normal (Some el))
  | Normal false => up T el = None -> first_match T matches s el (Normal None)
  | Throw e => first_match T matches s el (Throw e)
  end.
Proof.
  destruct (matches s el) as [[]|e] eqn:Hm; simpl.
  - exists 0%nat. eauto using unmatched_before_0.
  - intros Hup. exists 0%nat, el. split_and!; [done..|].
    intros [|j] b Hj Hw; [by simplify_eq/=|lia].
  - exists 0%nat, el. eauto using unmatched_before_0.
Qed.

(** C9.  From an element whose chain of parents ends, the loop of the shim
    ends: with enough turns allowed it returns, and allowing more changes
    nothing.  It returns the first node on the way up (the element itself
    included) that matches the selector, and [null] when the walk reaches
    its end without a match; when [matches] throws on the way, it throws. *)
Theorem closest_terminates_with_first_match s el :
  ends T el ->
  exists fuel r,
    (forall n, (fuel <= n)%nat -> closest_loop T matches n s el = Some r)
    /\ first_match T matches s el r.
Proof.
  induction 1 as [el Hup|el p Hup Hends (fuel & r & Hrun & Hr)].
  - pose proof (first_match_here s el) as Hh.
    destruct (matches s el) as [[]|e] eqn:Hm.
    + exists 1%nat, (Normal (Some el)). split; [|done].
      intros n Hn. apply (closest_loop_more s 1); [|done]. simpl. by rewrite Hm.
    + exists 1%nat, (Normal None). split; [|by apply Hh].
      intros n Hn. apply (closest_loop_more s 1); [|done]. simpl.
      by rewrite Hm, Hup.
    + exists 1%nat, (Throw e). split; [|done].
      intros n Hn. apply (closest_loop_more s 1); [|done]. simpl. by rewrite Hm.
  - pose proof (first_match_here s el) as Hh.
    destruct (matches s el) as [[]|e] eqn:Hm.
    + exists 1%nat, (Normal (Some el)). split; [|done].
      intros n Hn. apply (closest_loop_more s 1); [|done]. simpl. by rewrite Hm.
    + exists (S fuel), r. split; [|by eapply first_match_step].
      intros n Hn. destruct n as [|n]; [lia|]. simpl. rewrite Hm, Hup.
      apply Hrun. lia.
    + exists 1%nat, (Throw e). split; [|done].
      intros n Hn. apply (closest_loop_more s 1); [|done]. simpl. by rewrite Hm.
Qed.

End ClosestFacts.

(** From the link of the sample tree, up to the document. *)
Lemma closest_terminates_with_first_match_witness :
  exists fuel r,
    (forall n, (fuel <= n)%nat ->
       Closest.closest_loop SmallHost.sample_tree SmallHost.sample_matches
         n "nav" 4%nat = Some r)
    /\ Closest.first_match SmallHost.sample_tree SmallHost.sample_matches
         "nav" 4%nat r.
Proof.
  apply (closest_terminates_with_first_match SmallHost.sample_tree
           SmallHost.sample_matches "nav" 4%nat).
  apply (Closest.ends_step _ 4%nat 3%nat); [reflexivity|].
  apply (Closest.ends_step _ 3%nat 2%nat); [reflexivity|].
  apply (Closest.ends_step _ 2%nat 1%nat); [reflexivity|].
  apply Closest.ends_top. reflexivity.
Defined.

Example closest_sample :
  Closest.closest_loop SmallHost.sample_tree SmallHost.sample_matches
    5 "nav" 4%nat = Some (Normal (Some 3%nat))
  /\ Closest.closest_loop SmallHost.sample_tree SmallHost.sample_matches
       5 "a" 4%nat = Some (Normal (Some 4%nat))
  /\ Closest.closest_loop SmallHost.sample_tree SmallHost.sample_matches
       5 "div" 4%nat = Some (Normal None)
  /\ Closest.closest_loop SmallHost.sample_tree SmallHost.sample_matches
       5 "#" 4%nat = Some (Throw "SyntaxError")
  /\ Closest.closest_loop SmallHost.sample_tree SmallHost.sample_matches
       3 "div" 4%nat = None.
Proof. by vm_compute. Qed.

(* ===================================================================== *)
(** * Further properties *)
(* ===================================================================== *)

(** ** [debounce], for any run of calls *)

Section DebounceMore.
Context {Args S : Type}.
Variable func : Args -> S -> S * completion unit.
Variable wait : Z.

Implicit Types (w : @Debounce.dworld Args S) (a : Args) (c : Z * Args).






End DebounceMore.


(* ===================================================================== *)
(** ** [throttle], for any run of calls *)
(* ===================================================================== *)

Section ThrottleMore.
Context {Ctx Args S : Type}.
Variable func : Ctx -> Args -> S -> S * completion unit.
Variable limit : Z.

Implicit Types (w : @Throttle.tworld Ctx Args S) (c : Z * Ctx * Args).

(** One call, whatever the gate: it is let through when the gate is open or
    its timer is due, and then closes the gate unless [func] throws. *)
Lemma throttle_call_step w gate now log u c :
  Quiet.gate_is (timeout_of limit) w gate now log u ->
  let now' := Z.max now c.1.1 in
  let through := match gate with None => true | Some d => d <=? c.1.1 end in
  let r := func c.1.2 c.2 u in
  Quiet.gate_is (timeout_of limit) (Throttle.call_at func limit w c)
    (if through
     then if throws r.2 then None else Some (now' + timeout_of limit)
     else gate)
    now'
    (if through then log ++ [(now', c.1.2, c.2)] else log)
    (if through then r.1 else u).
Proof.
  intros (Hcl & Hlog & Hu & Hg). cbv zeta. unfold Throttle.call_at.
  pose proof (timeout_of_nonneg limit) as Hl.
  destruct gate as [d|].
  - destruct Hg as (Hin & Hd & h & Hq).
    destruct (Z.leb_spec d c.1.1) as [Hdue|Hearly].
    + rewrite (run_until_due _ _ _ _ Hq) by done. simpl.
      unfold Throttle.wrapper. simpl. rewrite Hu, Hlog, Hcl.
      replace (Z.max (Z.max now d) c.1.1) with (Z.max now c.1.1) by lia.
      destruct (func c.1.2 c.2 u) as [u' [[]|e]]; simpl;
        split_and!; try done; try lia. eauto.
    + rewrite (run_until_early _ _ _ _ Hq) by done.
      unfold Throttle.wrapper. simpl. rewrite Hin. simpl.
      rewrite Hcl. split_and!; try done; try lia. eauto.
  - destruct Hg as [Hq Hin]. rewrite run_until_idle by done.
    unfold Throttle.wrapper. simpl. rewrite Hin, Hu, Hlog, Hcl, Hq.
    destruct (func c.1.2 c.2 u) as [u' [[]|e]]; simpl;
      split_and!; try done; try lia. eauto.
Qed.

Lemma throttle_fresh_gate t0 (s0 : S) :
  Quiet.gate_is (timeout_of limit)
    (Throttle.throttle t0 s0 : @Throttle.tworld Ctx Args S) None t0 [] s0.
Proof. by split_and!. Qed.








(** X4.  A [func] that throws on every call is not throttled at all: under
    any run of calls in time order every call runs it, and the gate is open
    afterwards. *)
Theorem throttle_throwing_func_never_gated t0 s0 calls :
  (forall x a s, throws (func x a s).2 = true) ->
  Sorted Z.le (t0 :: calls.*1.*1) ->
  let w := Throttle.play func limit calls (Throttle.throttle t0 s0) in
  Throttle.calls_of w = calls
  /\ Throttle.inThrottle (state w) = false
  /\ pending (queue w) = [].
Proof.
  intros Hn Hs. cbv zeta.
  assert (forall calls w now log u,
            Quiet.gate_is (timeout_of limit) w None now log u ->
            Sorted Z.le (now :: calls.*1.*1) ->
            exists now' u',
              Quiet.gate_is (timeout_of limit)
                (Throttle.play func limit calls w) None now'
                (log ++ calls) u') as Hplay.
  { clear calls Hs. induction calls as [|c calls IH]; intros w now log u Hg Hs.
    - rewrite app_nil_r. eauto.
    - simpl in Hs. apply Sorted_inv in Hs as [Hs Hd]. apply HdRel_inv in Hd.
      pose proof (throttle_call_step w None now log u c Hg) as Hg'.
      cbv zeta in Hg'. rewrite Hn in Hg'.
      replace (Z.max now c.1.1) with c.1.1 in Hg' by lia.
      destruct (IH _ _ _ _ Hg' Hs) as (now' & u' & Hg'').
      exists now', u'. simpl.
      replace (log ++ c :: calls) with ((log ++ [(c.1.1, c.1.2, c.2)]) ++ calls);
        [done|].
      rewrite <- app_assoc. by destruct c as [[t x] a]. }
  destruct (Hplay calls _ _ _ _ (throttle_fresh_gate t0 s0) Hs)
    as (now' & u' & _ & Hlog & _ & Hq & Hin).
  by split_and!.
Qed.

End ThrottleMore.

(* ===================================================================== *)
(** ** [ready] *)
(* ===================================================================== *)

Section ReadyFacts.
Import Ready.
Context {F S : Type} `{EqDecision F}.
Variable run : F -> S -> S * completion unit.

Implicit Types (d : @document F S) (fn : F) (fns : list F).

Lemma call_fields fn d :
  ran (call run fn d).1 = ran d ++ [fn]
  /\ readyState (call run fn d).1 = readyState d
  /\ contentLoaded (call run fn d).1 = contentLoaded d
  /\ user (call run fn d).1 = (run fn (user d)).1
  /\ (call run fn d).2 = (run fn (user d)).2.
Proof. unfold call. by destruct (run fn (user d)). Qed.

Lemma listeners_run l : forall d,
  ran (foldl (fun d fn => (call run fn d).1) d l) = ran d ++ l
  /\ readyState (foldl (fun d fn => (call run fn d).1) d l) = readyState d.
Proof.
  induction l as [|fn l IH]; intros d; simpl; [by rewrite app_nil_r|].
  destruct (IH (call run fn d).1) as [-> ->].
  destruct (call_fields fn d) as (-> & -> & _).
  by rewrite <- app_assoc.
Qed.

Lemma readies_loading fns : forall d,
  readyState d = "loading" -> NoDup (contentLoaded d ++ fns) ->
  let r := readies run fns d in
  r.2 = Normal tt
  /\ ran r.1 = ran d /\ user r.1 = user d
  /\ readyState r.1 = "loading"
  /\ contentLoaded r.1 = contentLoaded d ++ fns.
Proof.
  induction fns as [|fn fns IH]; intros d Hl Hn; simpl.
  - by rewrite app_nil_r.
  - unfold mbind, M_bind, bind, ready. rewrite Hl. simpl.
    assert (fn ∉ contentLoaded d) as Hfn.
    { apply NoDup_app in Hn as (_ & Hn & _). intros Hin.
      apply (Hn fn Hin). left. }
    unfold addEventListener. rewrite decide_False by done.
    rewrite (app_assoc _ [fn] fns : contentLoaded d ++ fn :: fns
                                    = (contentLoaded d ++ [fn]) ++ fns) in *.
    by destruct (IH {| readyState := readyState d;
                       contentLoaded := contentLoaded d ++ [fn];
                       user := user d; ran := ran d |} Hl Hn)
      as (? & ? & ? & ? & ?).
Qed.

(** X5.  [ready(fn)] runs [fn] once.  On a document that is no longer
    loading it runs it at once, adds no listener, and ends as [fn] ends (what
    [fn] throws leaves [ready]).  On a loading document it runs nothing and
    returns; the functions handed to it, all different, then run when the
    document has been parsed: each once, in the order handed over, after the
    listeners that were there before.  A function that is already a listener
    is not added a second time. *)
Theorem ready_runs_each_once d fns fn :
  (readyState d ≠ "loading" ->
   let r := ready run fn d in
   ran r.1 = ran d ++ [fn]
   /\ contentLoaded r.1 = contentLoaded d
   /\ r.2 = (run fn (user d)).2)
  /\ (readyState d = "loading" ->
      (fn ∈ contentLoaded d -> ready run fn d = (d, Normal tt))
      /\ (NoDup (contentLoaded d ++ fns) ->
          let r := readies run fns d in
          r.2 = Normal tt
          /\ ran r.1 = ran d
          /\ user r.1 = user d
          /\ ran (DOMContentLoaded run r.1) = ran d ++ contentLoaded d ++ fns
          /\ readyState (DOMContentLoaded run r.1) = "interactive")).
Proof.
  split; [|intros Hl; split; revert Hl].
  - intros Hl. cbv zeta. unfold ready. rewrite bool_decide_true by done.
    by destruct (call_fields fn d) as (-> & _ & -> & _ & ->).
  - intros Hl Hin. unfold ready, addEventListener.
    rewrite bool_decide_false by (intros Hne; by apply Hne).
    by rewrite decide_True.
  - intros Hl Hn.
    destruct (readies_loading fns d Hl Hn) as (Hr & Hran & Hu & Hs & Hc).
    cbv zeta. split_and!; try done.
    + unfold DOMContentLoaded.
      destruct (listeners_run (contentLoaded (readies run fns d).1)
                  {| readyState := "interactive";
                     contentLoaded := contentLoaded (readies run fns d).1;
                     user := user (readies run fns d).1;
                     ran := ran (readies run fns d).1 |}) as [-> _].
      simpl. by rewrite Hran, Hc.
    + unfold DOMContentLoaded.
      by destruct (listeners_run (contentLoaded (readies run fns d).1)
                  {| readyState := "interactive";
                     contentLoaded := contentLoaded (readies run fns d).1;
                     user := user (readies run fns d).1;
                     ran := ran (readies run fns d).1 |}) as [_ ->].
Qed.

End ReadyFacts.

(* ===================================================================== *)
(** ** The event loop, with any number of timers armed *)
(* ===================================================================== *)

Lemma Forall_filter_keeps {A} (P : A -> Prop) (Q : A -> Prop)
    `{!forall x, Decision (Q x)} (l : list A) :
  Forall P l -> Forall P (filter Q l).
Proof.
  rewrite !Forall_forall. intros Hl x [_ Hx]%list_elem_of_filter. by apply Hl.
Qed.

Section LoopFacts.
Context {C X : Type}.
Implicit Types (l : list (timer C)) (x : timer C) (q : timers C) (w : world C X).

Lemma earliest_least l x :
  earliest l = Some x -> Forall (fun y => t_due x <= t_due y) l.
Proof.
  revert x. induction l as [|y r IH]; intros x Hx; [done|]. simpl in Hx.
  destruct (earliest r) as [z|] eqn:Hr.
  - specialize (IH z eq_refl).
    destruct (Z.ltb_spec (t_due z) (t_due y)); simplify_eq.
    + constructor; [lia|done].
    + constructor; [lia|]. eapply Forall_impl; [exact IH|]. simpl. intros; lia.
  - simplify_eq. destruct r; [by repeat constructor|].
    simpl in Hr. destruct (earliest r); [destruct (_ <? _)|]; done.
Qed.

Lemma earliest_nonempty l : l ≠ [] -> is_Some (earliest l).
Proof.
  destruct l as [|y r]; [done|]. intros _. simpl.
  destruct (earliest r); [destruct (_ <? _)|]; eauto.
Qed.

(** Nothing due is left when [pop_due] finds nothing. *)
Lemma pop_due_None t q :
  pop_due t q = None -> Forall (fun x => t < t_due x) (pending q).
Proof.
  unfold pop_due. destruct (earliest (pending q)) as [x|] eqn:He.
  - destruct (Z.leb_spec (t_due x) t); [done|]. intros _.
    eapply Forall_impl; [by apply earliest_least|]. simpl. intros; lia.
  - intros _. destruct (pending q) as [|y r]; [done|].
    by destruct (earliest_nonempty (y :: r)) as [? ?]; simplify_eq.
Qed.

Lemma pop_due_Some t q x q' :
  pop_due t q = Some (x, q') ->
  t_due x <= t /\ x ∈ pending q
  /\ next_id q' = next_id q
  /\ pending q' = filter (fun y => t_id y ≠ t_id x) (pending q).
Proof.
  unfold pop_due. destruct (earliest (pending q)) as [y|] eqn:He; [|done].
  destruct (Z.leb_spec (t_due y) t); [|done]. intros [= <- <-].
  split_and!; [done|by apply earliest_In|done..].
Qed.

Variable fire : C -> world C X -> world C X.

(** A property of the armed timers that dropping timers and running
    callbacks keep. *)
Variable P : timer C -> Prop.
Hypothesis fire_keeps : forall c w,
  Forall P (pending (queue w)) -> Forall P (pending (queue (fire c w))).

Lemma run_fuel_keeps n t w :
  Forall P (pending (queue w)) ->
  Forall P (pending (queue (run_fuel fire n t w))).
Proof.
  revert w. induction n as [|n IH]; intros w Hw; simpl; [done|].
  destruct (pop_due t (queue w)) as [[x q']|] eqn:Hp; [|done].
  apply IH, fire_keeps. simpl.
  apply pop_due_Some in Hp as (_ & _ & _ & ->). by apply Forall_filter_keeps.
Qed.

Lemma run_until_keeps t w :
  Forall P (pending (queue w)) ->
  Forall P (pending (queue (run_until fire t w))).
Proof. unfold run_until. simpl. apply run_fuel_keeps. Qed.

End LoopFacts.

(* ===================================================================== *)
(** ** The viewport height *)
(* ===================================================================== *)

Section ViewportFacts.
Import Viewport.
Variable px : Z -> string.

Implicit Types (w : vworld) (s : window).

(** X6.  [setViewportHeight] never throws and never changes the height it
    reads.  Where [setProperty] works it leaves [--vh] at the text for the
    current height and logs nothing; where it throws, [--vh] stays as it was
    and one warning is logged. *)
Theorem setViewportHeight_never_throws (setProperty_error : option exn) s :
  let r := setViewportHeight px setProperty_error s in
  r.2 = Normal tt
  /\ innerHeight r.1 = innerHeight s
  /\ match setProperty_error with
     | None => vh r.1 = Some (px (innerHeight s)) /\ console r.1 = console s
     | Some e =>
         vh r.1 = vh s
         /\ console r.1
            = console s ++ [("warn", "Could not set viewport height: " +:+ e)]
     end.
Proof.
  unfold setViewportHeight, try_catch, mbind, M_bind, bind, gets, setProperty_vh.
  by destruct setProperty_error.
Qed.

(** From here on [setProperty] works. *)

Lemma run_setViewportHeight_fields w :
  let w' := run_setViewportHeight px None w in
  clock w' = clock w /\ queue w' = queue w
  /\ innerHeight (win (state w')) = innerHeight (win (state w))
  /\ vh (win (state w')) = Some (px (innerHeight (win (state w)))).
Proof. done. Qed.

Lemma fire_fields cb w :
  let w' := fire px None cb w in
  clock w' = clock w
  /\ innerHeight (win (state w')) = innerHeight (win (state w))
  /\ vh (win (state w')) = Some (px (innerHeight (win (state w))))
  /\ (pending (queue w') = pending (queue w)
      \/ exists i, pending (queue w')
                   = filter (fun x => t_id x ≠ i) (pending (queue w))).
Proof.
  destruct cb; simpl; split_and!; try done; [by left|].
  destruct (timeout (state w)); simpl; eauto.
Qed.

Lemma fire_keeps_pending (P : timer callback -> Prop) cb w :
  Forall P (pending (queue w)) -> Forall P (pending (queue (fire px None cb w))).
Proof.
  intros H. destruct (fire_fields cb w) as (_ & _ & _ & [->|[i ->]]); [done|].
  by apply Forall_filter_keeps.
Qed.

Lemma fire_arms_nothing cb w :
  (length (pending (queue (fire px None cb w))) <= length (pending (queue w)))%nat.
Proof.
  destruct (fire_fields cb w) as (_ & _ & _ & [->|[i ->]]); [done|].
  apply length_filter.
Qed.

Lemma run_fuel_settling n t h : forall w,
  settling px h w ->
  settling px h (run_fuel (fire px None) n t w)
  /\ clock w <= clock (run_fuel (fire px None) n t w).
Proof.
  induction n as [|n IH]; intros w Hw; simpl; [done|].
  destruct (pop_due t (queue w)) as [[x q']|] eqn:Hp; [|done].
  destruct Hw as [Hh _].
  set (w1 := {| clock := Z.max (clock w) (t_due x); queue := q';
                state := state w |}).
  destruct (fire_fields (t_cb x) w1) as (Hc & Hh1 & Hv & _).
  destruct (IH (fire px None (t_cb x) w1)) as [Hs Hck].
  - split; [by rewrite Hh1|]. left. by rewrite Hv, <- Hh.
  - split; [done|]. rewrite Hc in Hck. simpl in Hck. lia.
Qed.

Lemma run_until_settling t h w :
  settling px h w ->
  settling px h (run_until (fire px None) t w)
  /\ clock w <= clock (run_until (fire px None) t w)
  /\ t <= clock (run_until (fire px None) t w).
Proof.
  intros Hw. unfold run_until.
  destruct (run_fuel_settling (length (pending (queue w))) t h w Hw) as [Hs Hc].
  split; [done|]. simpl. lia.
Qed.

Lemma run_until_soon t h w :
  settling px h w -> soon w -> soon (run_until (fire px None) t w).
Proof.
  intros Hs Hw. unfold soon.
  destruct (run_until_settling t h w Hs) as (_ & Hc & _).
  eapply Forall_impl.
  - apply (run_until_keeps (fire px None)
             (fun x => t_due x <= clock w + 100)); [|done].
    intros c w'. apply fire_keeps_pending.
  - intros x Hx. cbv beta in *. lia.
Qed.

Lemma dispatch_settling h w ev :
  settling px h w -> soon w ->
  let h' := match ev.2 with Resize h' => h' | OrientationChange => h end in
  settling px h' (dispatch px None w ev) /\ soon (dispatch px None w ev)
  /\ clock w <= clock (dispatch px None w ev).
Proof.
  intros Hs Hw. cbv zeta. unfold dispatch.
  destruct (run_until_settling ev.1 h w Hs) as ([Hh Hv] & Hc & _).
  pose proof (run_until_soon ev.1 h w Hs Hw) as Hsoon.
  set (w1 := run_until (fire px None) ev.1 w) in *. clearbody w1.
  unfold soon in Hsoon.
  destruct ev.2 as [h'|].
  - unfold resize_listener, set_height, settling, soon. simpl.
    split_and!; [done| | |done].
    + right. by intros [_ ?]%app_eq_nil.
    + apply Forall_app.
      split; [|apply Forall_singleton; simpl;
               change (timeout_of 100) with 100; lia].
      destruct (timeout (state w1)); simpl; [|done].
      by apply Forall_filter_keeps.
  - unfold handleOrientationChange, settling, soon. simpl.
    split_and!; [done| | |done].
    + right. by intros [_ ?]%app_eq_nil.
    + apply Forall_app.
      split; [done|apply Forall_singleton; simpl;
                   change (timeout_of 100) with 100; lia].
Qed.

Lemma play_settling events : forall h w,
  settling px h w -> soon w ->
  settling px (height_after h events) (play px None events w)
  /\ soon (play px None events w).
Proof.
  induction events as [|ev events IH]; intros h w Hs Hw; [done|].
  destruct (dispatch_settling h w ev Hs Hw) as (Hs' & Hw' & _).
  simpl. by apply IH.
Qed.

(** X7.  After any run of resize and orientation events, at any times, once
    100 ms have passed since the last of them: [--vh] is the text for the
    height the window now has, and no timer is left armed. *)
Theorem viewport_height_settles t0 s events T :
  let w := play px None events (init px None t0 s) in
  let w' := run_until (fire px None) T w in
  clock w + 100 <= T ->
  innerHeight (win (state w')) = height_after (innerHeight s) events
  /\ vh (win (state w')) = Some (px (height_after (innerHeight s) events))
  /\ pending (queue w') = [].
Proof.
  cbv zeta. intros HT.
  destruct (play_settling events (innerHeight s) (init px None t0 s))
    as [Hs Hw]; [by split; [|left]|by apply Forall_nil|].
  set (w := play px None events (init px None t0 s)) in *.
  destruct (run_until_settling T _ w Hs) as ([Hh Hv] & _).
  assert (pending (queue (run_until (fire px None) T w)) = []) as Hq.
  { pose proof (run_until_settles (fire px None) (fire_arms_nothing) T w) as Hn.
    apply pop_due_None in Hn.
    pose proof (run_until_keeps (fire px None)
                  (fun x => t_due x <= clock w + 100)
                  (fun c w' => fire_keeps_pending _ c w') T w Hw) as Hk.
    destruct (pending (queue (run_until (fire px None) T w))) as [|x r];
      [done|].
    apply Forall_cons in Hn as [Hn _]. apply Forall_cons in Hk as [Hk _]. lia. }
  split_and!; [done| |done].
  by destruct Hv as [Hv|Hv].
Qed.

End ViewportFacts.

(** [setViewportHeight] on the page is [setViewportHeight] on the window:
    the height and the console are the page's, and [--vh] is the declaration
    in the inline style of the root element. *)
Lemma setViewportHeight_views (px : Z -> string) (setProperty_error : option exn)
    (documentElement : Page.node) (p : Page.page) (e : Page.element) :
  Page.dom p !! documentElement = Some e ->
  let v := {| Viewport.innerHeight := Page.innerHeight p;
              Viewport.vh := Page.style e !! "--vh";
              Viewport.console := Page.console p |} in
  let r := Page.setViewportHeight px setProperty_error documentElement p in
  let rv := Viewport.setViewportHeight px setProperty_error v in
  r.2 = rv.2
  /\ Page.innerHeight r.1 = Viewport.innerHeight rv.1
  /\ Page.console r.1 = Viewport.console rv.1
  /\ (Page.dom r.1 !! documentElement ≫= fun e' => Page.style e' !! "--vh")
     = Viewport.vh rv.1.
Proof.
  intros He. cbv zeta. rewrite setViewportHeight_eq.
  unfold Viewport.setViewportHeight, try_catch, Viewport.setProperty_vh,
    mbind, M_bind, bind, gets, lift.
  destruct setProperty_error as [x|]; simpl.
  - by rewrite He.
  - split_and!; try done.
    rewrite lookup_alter_eq, He. simpl. by rewrite lookup_insert_eq.
Qed.

(* ===================================================================== *)
(** ** The mobile menu: opening, and the ways to dismiss it *)
(* ===================================================================== *)

Lemma elem_of_classList_add tok l c :
  c ∈ Page.classList_add tok l <-> c ∈ l \/ c = tok.
Proof.
  unfold Page.classList_add, Page.classList_contains. case_bool_decide.
  - split; [by left|]. by intros [?| ->].
  - rewrite elem_of_app, list_elem_of_singleton. done.
Qed.

Lemma elem_of_classList_remove tok l c :
  c ∈ Page.classList_remove tok l <-> c ∈ l /\ c ≠ tok.
Proof. unfold Page.classList_remove. rewrite list_elem_of_filter. tauto. Qed.

Lemma elem_of_classList_toggle tok l c :
  c ∈ Page.classList_toggle tok l
  <-> (c = tok /\ tok ∉ l) \/ (c ≠ tok /\ c ∈ l).
Proof.
  unfold Page.classList_toggle, Page.classList_contains.
  case_bool_decide as Hin.
  - rewrite elem_of_classList_remove. split; [tauto|].
    intros [[-> ?]|[? ?]]; [done|tauto].
  - rewrite elem_of_classList_add. split.
    + intros [Hc| ->]; [|tauto]. right. split; [|done]. by intros ->.
    + intros [[-> _]|[_ ?]]; tauto.
Qed.

Lemma has_class_update m f c p e :
  Page.dom p !! m = Some e ->
  Page.has_class m c (Page.update_element m (Page.with_classList f) p)
  = bool_decide (c ∈ f (Page.classList e)).
Proof.
  intros He. unfold Page.has_class.
  rewrite lookup_update_element, decide_True by done.
  by rewrite He.
Qed.

Lemma has_class_lookup m c p e :
  Page.dom p !! m = Some e ->
  Page.has_class m c p = bool_decide (c ∈ Page.classList e).
Proof. intros He. unfold Page.has_class. by rewrite He. Qed.

Section MenuMore.
Import Page.
Variable querySelectorAll : string -> gmap node element -> completion (list node).

Lemma toggleMobileMenu_eq p :
  toggleMobileMenu querySelectorAll p
  = (match querySelector querySelectorAll "#mobileMenu" (dom p) with
     | Normal (Some m) =>
         update_element m (with_classList (classList_toggle "active")) p
     | Normal None => p
     | Throw _ => console_log "warn" "Invalid selector: #mobileMenu" p
     end, Normal tt).
Proof.
  unfold toggleMobileMenu, mbind, M_bind, bind, mret, M_ret, ret, lift.
  rewrite safeSelect_eq. unfold querySelector.
  by destruct (querySelectorAll _ _) as [[|m l]|e].
Qed.

(** X8.  [toggleMobileMenu] flips ["active"] on the menu and nothing else:
    the menu has it afterwards exactly when it did not before, every other
    class of the menu and every other node stay as they were.  Toggling
    twice gives every class back, and [closeMobileMenu] after a toggle
    leaves the menu closed (the second call looks the menu up again: this
    holds while [#mobileMenu] still selects it).  Without a menu the page
    stays as it is. *)
Theorem toggleMobileMenu_flips_active p :
  let menu := querySelector querySelectorAll "#mobileMenu" in
  let toggle := fun p => (toggleMobileMenu querySelectorAll p).1 in
  let close := fun p => (closeMobileMenu querySelectorAll p).1 in
  (menu (dom p) = Normal None -> toggle p = p)
  /\ (forall m e, menu (dom p) = Normal (Some m) -> dom p !! m = Some e ->
      has_class m "active" (toggle p) = negb (has_class m "active" p)
      /\ (forall c, c ≠ "active" -> has_class m c (toggle p) = has_class m c p)
      /\ (forall n, n ≠ m -> dom (toggle p) !! n = dom p !! n)
      /\ (menu (dom (toggle p)) = Normal (Some m) ->
          (forall c, has_class m c (toggle (toggle p)) = has_class m c p)
          /\ has_class m "active" (close (toggle p)) = false)).
Proof.
  cbv zeta. split.
  - intros Hm. by rewrite toggleMobileMenu_eq, Hm.
  - intros m e Hm He. rewrite toggleMobileMenu_eq, Hm. cbn [fst].
    set (p' := update_element m (with_classList (classList_toggle "active")) p).
    assert (dom p' !! m
            = Some (with_classList (classList_toggle "active") e)) as He'
      by (subst p'; by rewrite lookup_update_element, decide_True, He).
    split_and!.
    + subst p'. rewrite (has_class_update _ _ _ _ e He), (has_class_lookup _ _ _ e He).
      destruct (decide ("active" ∈ classList e)) as [Hin|Hin].
      * rewrite (bool_decide_true _ Hin). apply bool_decide_eq_false.
        rewrite elem_of_classList_toggle. tauto.
      * rewrite (bool_decide_false _ Hin). apply bool_decide_eq_true.
        rewrite elem_of_classList_toggle. tauto.
    + intros c Hc. subst p'.
      rewrite (has_class_update _ _ _ _ e He), (has_class_lookup _ _ _ e He).
      apply bool_decide_ext. rewrite elem_of_classList_toggle. tauto.
    + intros n Hn. subst p'. by rewrite lookup_update_element, decide_False.
    + intros Hm'. split.
      * intros c. rewrite toggleMobileMenu_eq, Hm'. cbn [fst].
        rewrite (has_class_update _ _ _ _ _ He'), (has_class_lookup _ _ _ e He).
        apply bool_decide_ext. simpl.
        rewrite !elem_of_classList_toggle.
        destruct (decide (c = "active")) as [->|Hc];
          destruct (decide ("active" ∈ classList e)); tauto.
      * rewrite closeMobileMenu_eq, Hm'. cbn [fst]. apply has_class_deactivate.
Qed.

End MenuMore.

Section KeyFacts.
Import Page.

(** X9.  The key listener: Escape on an open menu takes ["active"] off the
    menu, leaves every other node alone and moves the focus to the toggle
    (when there is one); any other key, or a page without a menu, changes
    nothing at all. *)
Theorem escape_closes_and_focuses (w : wiring) (key : string) (p : page) :
  let p' := handleKeyboardNavigation w key p in
  (key ≠ "Escape" -> p' = p)
  /\ (mobileMenu w = None -> p' = p)
  /\ (forall m, mobileMenu w = Some m -> key = "Escape" ->
      has_class m "active" p = true ->
      has_class m "active" p' = false
      /\ activeElement p' = match menuToggle w with
                            | Some tg => Some tg
                            | None => activeElement p
                            end
      /\ (forall n, n ≠ m -> dom p' !! n = dom p !! n)
      /\ requests p' = requests p).
Proof.
  cbv zeta. unfold handleKeyboardNavigation. split_and!.
  - intros Hk. destruct (mobileMenu w) as [m|]; [|done].
    by rewrite (proj2 (String.eqb_neq key "Escape") Hk).
  - by intros ->.
  - intros m -> -> Ha. rewrite Ha. simpl.
    fold (deactivate m p).
    destruct (menuToggle w) as [tg|]; simpl.
    + split_and!; try done.
      * apply (has_class_deactivate m p).
      * intros n Hn. simpl. by rewrite lookup_alter_ne.
    + split_and!; try done.
      * apply has_class_deactivate.
      * intros n Hn. simpl. by rewrite lookup_alter_ne.
Qed.

End KeyFacts.

(* ===================================================================== *)
(** ** Clicks and the menu *)
(* ===================================================================== *)

Section LinksFacts.
Import Page Links.
Variable querySelectorAll : string -> gmap node element -> completion (list node).
Variable ancestors : node -> list node.











End LinksFacts.

(* ===================================================================== *)
(** ** The body of the scroll handler *)
(* ===================================================================== *)

Section RestyleFacts.
Import Page Restyle.
Variable w : wiring.

Lemma lookup_scroll_body p n :
  dom (scroll_body w p) !! n
  = (fun e => button_part w (offset_read p) n
                (header_part w (offset_read p) n e)) <$> dom p !! n.
Proof.
  unfold scroll_body, header_part, button_part.
  set (y := offset_read p).
  set (p1 := match header w with
             | Some h =>
                 if js_gt y (100 # 1)
                 then update_element h (set_styles elevated) p
                 else update_element h (set_styles base) p
             | None => p
             end).
  assert (dom p1 !! n
          = (fun e => if decide (header w = Some n)
                      then set_styles (if js_gt y (100 # 1)
                                       then elevated else base) e
                      else e) <$> dom p !! n) as Hp1.
  { subst p1. destruct (header w) as [h|].
    - destruct (js_gt y (100 # 1)); rewrite lookup_update_element;
        repeat case_decide; simplify_eq; try done;
        by destruct (dom p !! n).
    - case_decide; [done|]. by destruct (dom p !! n). }
  destruct (scrollTopBtn w) as [b|].
  - destruct (js_gt y (500 # 1)); rewrite lookup_update_element, Hp1;
      repeat case_decide; simplify_eq; try done;
      by destruct (dom p !! n).
  - rewrite Hp1. repeat case_decide; simplify_eq; by destruct (dom p !! n).
Qed.

Lemma scroll_body_fields p :
  let p' := scroll_body w p in
  activeElement p' = activeElement p
  /\ scrollY p' = scrollY p /\ pageYOffset p' = pageYOffset p
  /\ innerWidth p' = innerWidth p /\ innerHeight p' = innerHeight p
  /\ console p' = console p /\ requests p' = requests p
  /\ defaultPrevented p' = defaultPrevented p
  /\ imageObserver p' = imageObserver p.
Proof.
  unfold scroll_body.
  destruct (header w), (scrollTopBtn w);
    repeat match goal with |- context [js_gt ?a ?b] => destruct (js_gt a b) end;
    by split_and!.
Qed.

Lemma set_styles_twice y e :
  set_styles (if js_gt y (100 # 1) then elevated else base)
    (set_styles (if js_gt y (100 # 1) then elevated else base) e)
  = set_styles (if js_gt y (100 # 1) then elevated else base) e.
Proof.
  destruct (js_gt y (100 # 1)); unfold set_styles, set_style; simpl; f_equal;
    apply map_eq; intros k; rewrite !lookup_insert; by repeat case_decide.
Qed.

Lemma visible_twice y l :
  (if js_gt y (500 # 1)
   then classList_add "visible" else classList_remove "visible")
    ((if js_gt y (500 # 1)
      then classList_add "visible" else classList_remove "visible") l)
  = (if js_gt y (500 # 1)
     then classList_add "visible" else classList_remove "visible") l.
Proof.
  destruct (js_gt y (500 # 1)); [|apply classList_remove_idemp].
  unfold classList_add at 1. unfold classList_contains.
  by rewrite bool_decide_true by apply visible_added.
Qed.

Lemma parts_twice y n e :
  button_part w y n (header_part w y n (button_part w y n (header_part w y n e)))
  = button_part w y n (header_part w y n e).
Proof.
  unfold button_part, header_part.
  destruct (decide (header w = Some n)), (decide (scrollTopBtn w = Some n));
    try done.
  - pose proof (set_styles_twice y e) as Hs. pose proof (visible_twice y) as Hv.
    destruct (js_gt y (100 # 1)), (js_gt y (500 # 1));
      unfold with_classList, set_styles, set_style in *; simpl in *;
      injection Hs as Hs; rewrite Hv; by rewrite Hs.
  - apply set_styles_twice.
  - unfold with_classList. simpl. by rewrite visible_twice.
Qed.

(** X11.  The body of the scroll handler is idempotent (run again at the
    same offset it changes nothing more) and touches only what it is for: no
    node appears or disappears, no tag, attribute or other field of the page
    changes, only the header's inline style and only the button's class
    list may differ, and of the class list only ["visible"]. *)
Theorem scroll_body_idempotent_and_local (p : page) :
  let p' := scroll_body w p in
  scroll_body w p' = p'
  /\ requests p' = requests p /\ console p' = console p
  /\ activeElement p' = activeElement p
  /\ imageObserver p' = imageObserver p
  /\ forall n,
       match dom p !! n, dom p' !! n with
       | Some e, Some e' =>
           tag e' = tag e /\ attrs e' = attrs e
           /\ (header w ≠ Some n -> style e' = style e)
           /\ (scrollTopBtn w ≠ Some n -> classList e' = classList e)
           /\ (forall c, c ≠ "visible" -> c ∈ classList e' <-> c ∈ classList e)
       | None, None => True
       | _, _ => False
       end.
Proof.
  cbv zeta.
  destruct (scroll_body_fields p)
    as (Ha & Hy & Ho & Hi & Hh & Hc & Hr & Hd & Hob).
  split_and!; try done.
  - destruct (scroll_body_fields (scroll_body w p))
      as (Ha' & Hy' & Ho' & Hi' & Hh' & Hc' & Hr' & Hd' & Hob').
    assert (offset_read (scroll_body w p) = offset_read p) as Hoff
      by (unfold offset_read; by rewrite Hy, Ho).
    assert (dom (scroll_body w (scroll_body w p)) = dom (scroll_body w p)) as Hdom.
    { apply map_eq. intros n. rewrite !lookup_scroll_body, Hoff.
      destruct (dom p !! n) as [e|]; [|done]. simpl. by rewrite parts_twice. }
    destruct (scroll_body w (scroll_body w p)), (scroll_body w p).
    simpl in *. by subst.
  - intros n. rewrite lookup_scroll_body.
    destruct (dom p !! n) as [e|]; [|done]. simpl.
    unfold button_part, header_part.
    destruct (decide (header w = Some n)), (decide (scrollTopBtn w = Some n));
      repeat match goal with |- context [js_gt ?a ?b] => destruct (js_gt a b) end;
      simpl; split_and!; try done; intros c Hvis;
      rewrite ?elem_of_classList_add, ?elem_of_classList_remove; tauto.
Qed.

End RestyleFacts.

(* ===================================================================== *)
(** ** Lazy images: what is observed, and what is never upgraded *)
(* ===================================================================== *)

Section ObserverFacts.
Import Page.
Variable querySelectorAll : string -> gmap node element -> completion (list node).
Variable px : Z -> string.
Variable setProperty_error : option exn.
Variable documentElement : node.

Lemma observe_fields x p r o :
  imageObserver p = Some {| rootMargin := r; observed := o |} ->
  dom (observe x p) = dom p /\ console (observe x p) = console p
  /\ imageObserver (observe x p)
     = Some {| rootMargin := r;
               observed := if bool_decide (x ∈ o) then o else o ++ [x] |}.
Proof.
  intros Ho. unfold observe. rewrite Ho. simpl. by case_bool_decide.
Qed.

Lemma observe_all l : forall p r o,
  imageObserver p = Some {| rootMargin := r; observed := o |} ->
  dom (foldl (fun p img => observe img p) p l) = dom p
  /\ console (foldl (fun p img => observe img p) p l) = console p
  /\ (rootMargin <$> imageObserver (foldl (fun p img => observe img p) p l))
     = Some r
  /\ forall img,
       img ∈ watched (foldl (fun p img => observe img p) p l)
       <-> img ∈ o \/ img ∈ l.
Proof.
  induction l as [|x l IH]; intros p r o Ho.
  - simpl. unfold watched. rewrite Ho. simpl. split_and!; try done.
    intros img. split; [by left|]. intros [?|Hn]; [done|inversion Hn].
  - destruct (observe_fields x p r o Ho) as (Hd1 & Hc1 & Ho1).
    destruct (IH _ _ _ Ho1) as (Hd & Hc & Hr & Hw).
    change (foldl (fun p img => observe img p) p (x :: l))
      with (foldl (fun p img => observe img p) (observe x p) l).
    rewrite Hd, Hc, Hd1, Hc1. split_and!; try done.
    intros img. rewrite Hw, elem_of_cons.
    case_bool_decide as Hx; rewrite ?elem_of_app, ?list_elem_of_singleton.
    + split; [tauto|]. intros [?|[->|?]]; tauto.
    + tauto.
Qed.

(** The page the lookups of the ready callback leave for the statements
    after them: the document and the observer are as they were. *)
Lemma lookups_keep (has_IntersectionObserver : bool) p0 p' w :
  ready_callback querySelectorAll has_IntersectionObserver
    px setProperty_error documentElement p0 = (p', Normal w) ->
  dom p'
  = match setProperty_error with
    | None =>
        alter (set_style "--vh" (px (innerHeight p0))) documentElement (dom p0)
    | Some _ => dom p0
    end
  /\ (has_IntersectionObserver = false ->
      imageObserver p' = imageObserver p0 /\ lazyImages w = [])
  /\ (has_IntersectionObserver = true ->
      let found := match querySelectorAll "img[data-src]" (dom p') with
                   | Normal l => l
                   | Throw _ => []
                   end in
      lazyImages w = found
      /\ (forall img, img ∈ watched p' <-> img ∈ found)
      /\ (rootMargin <$> imageObserver p') = Some "50px").
Proof.
  intros H. unfold ready_callback in H.
  unfold mbind, M_bind, bind, mret, M_ret, ret, lift in H.
  repeat match type of H with
         | context [safeSelect ?q ?s ?p] =>
             rewrite (safeSelect_eq q s p) in H;
             destruct (q s (dom p)); simpl in H
         | context [safeSelectAll ?q anchor_selector ?p] =>
             rewrite (safeSelectAll_eq q anchor_selector p) in H;
             destruct (q anchor_selector (dom p)); simpl in H
         end.
  all: rewrite setViewportHeight_eq in H; simpl in H.
  all: destruct has_IntersectionObserver; simpl in H.
  all: repeat match type of H with
         | context [safeSelectAll ?q "img[data-src]" ?p] =>
             rewrite (safeSelectAll_eq q "img[data-src]" p) in H;
             destruct (q "img[data-src]" (dom p)) eqn:Himg; simpl in H
         end.
  all: repeat match type of H with
         | context [foldl ?f ?p ?l] =>
             destruct (observe_all l p "50px" [] eq_refl)
               as (Hd & Hc & Hr & Hw);
             set (pw := foldl f p l) in *; clearbody pw
         end.
  all: repeat match type of H with
         | context [safeSelectAll ?q "form" ?p] =>
             rewrite (safeSelectAll_eq q "form" p) in H;
             destruct (q "form" (dom p)); simpl in H
         end.
  all: simplify_eq; simpl.
  all: destruct setProperty_error; simpl in *.
  all: split_and!; try done; try (intros _; cbv zeta).
  all: rewrite ?Hd; simpl; rewrite ?Himg.
  all: try by split_and!.
  all: split_and!; try done.
  all: try (intros img; rewrite Hw; split;
            [intros [Hn|?]; [inversion Hn|done]|by right]).
Qed.

(** X12.  Where the engine has [IntersectionObserver], the ready callback
    makes a new observer with the margin ["50px"] and observes exactly the
    images that [img[data-src]] selects at that moment.  Of the document it
    changes one thing: [setViewportHeight] has written [--vh] into the
    inline style of the root element (nothing, where [setProperty] throws).
    (When the engine rejects the selector nothing is observed.) *)
Theorem ready_callback_observes_lazy_images p0 p' w :
  ready_callback querySelectorAll true
    px setProperty_error documentElement p0 = (p', Normal w) ->
  let found := match querySelectorAll "img[data-src]" (dom p') with
               | Normal l => l
               | Throw _ => []
               end in
  lazyImages w = found
  /\ (forall img, img ∈ watched p' <-> img ∈ found)
  /\ (rootMargin <$> imageObserver p') = Some "50px"
  /\ dom p'
     = match setProperty_error with
       | None =>
           alter (set_style "--vh" (px (innerHeight p0))) documentElement
             (dom p0)
       | Some _ => dom p0
       end.
Proof.
  intros H. destruct (lookups_keep true p0 p' w H) as (Hd & _ & Ho).
  destruct (Ho eq_refl) as (H1 & H2 & H3). by split_and!.
Qed.

End ObserverFacts.

Section UnobservedFacts.
Import Page.
Variable querySelectorAll : string -> gmap node element -> completion (list node).
Variable px : Z -> string.
Variable setProperty_error : option exn.
Variable documentElement : node.

Lemma deliver_unwatched p entries p' :
  watched p = [] -> deliver p entries = Some p' -> p' = p.
Proof.
  intros Hw. unfold deliver. rewrite Hw.
  destruct entries as [|e entries]; simpl; [by intros [= <-]|].
  first [done|rewrite bool_decide_false by (intros Hn; inversion Hn); done].
Qed.

Lemma deliveries_unwatched batches : forall p p',
  watched p = [] -> deliveries batches p = Some p' -> p' = p.
Proof.
  unfold deliveries. induction batches as [|b bs IH]; intros p p' Hw Hd.
  - by simplify_eq/=.
  - simpl in Hd. destruct (deliver p b) as [p1|] eqn:Hb;
      [|by rewrite deliveries_None in Hd].
    apply (deliver_unwatched _ _ _ Hw) in Hb. subst p1. by apply IH.
Qed.

(** X13.  Where the engine has no [IntersectionObserver], the ready callback
    makes no observer and observes nothing; of the document it changes only
    [--vh] on the root element.  On a page that had no observer before, no
    entry can then be delivered, so no delivery ever changes the page: the
    deferred images are never loaded. *)
Theorem without_observer_nothing_loads p0 p' w :
  ready_callback querySelectorAll false
    px setProperty_error documentElement p0 = (p', Normal w) ->
  lazyImages w = []
  /\ imageObserver p' = imageObserver p0
  /\ dom p'
     = match setProperty_error with
       | None =>
           alter (set_style "--vh" (px (innerHeight p0))) documentElement
             (dom p0)
       | Some _ => dom p0
       end
  /\ (imageObserver p0 = None ->
      forall batches p'', deliveries batches p' = Some p'' -> p'' = p').
Proof.
  intros H.
  destruct (lookups_keep querySelectorAll px setProperty_error documentElement
              false p0 p' w H) as (Hd & Ho & _).
  destruct (Ho eq_refl) as [Ho1 Ho2]. split_and!; try done.
  intros Hn batches p''. apply deliveries_unwatched.
  unfold watched. by rewrite Ho1, Hn.
Qed.

End UnobservedFacts.

Section SourcelessFacts.
Import Page.
Variable img : node.

Lemma image_entry_sourceless p e :
  truthy (getAttribute img "data-src" p) = false ->
  dom (image_entry p e) !! img = dom p !! img
  /\ (img ∈ watched p -> img ∈ watched (image_entry p e)).
Proof.
  intros Hs. destruct (decide (target e = img)) as [Ht|Ht].
  - unfold image_entry. rewrite Ht, Hs. by destruct (isIntersecting e).
  - split; [by apply image_entry_other|].
    unfold image_entry. destruct (isIntersecting e); [|done].
    cbv zeta.
    destruct (truthy (getAttribute (target e) "data-src" p)); [|done].
    rewrite watched_unobserve, list_elem_of_filter. intros Hin.
    split; [by intros ->|done].
Qed.

Lemma image_callback_sourceless entries : forall p,
  truthy (getAttribute img "data-src" p) = false ->
  dom (image_callback entries p) !! img = dom p !! img
  /\ (img ∈ watched p -> img ∈ watched (image_callback entries p)).
Proof.
  induction entries as [|e entries IH]; intros p Hs; [done|].
  destruct (image_entry_sourceless p e Hs) as [Hd Hw].
  destruct (IH (image_entry p e)) as [Hd' Hw'].
  - unfold getAttribute in *. by rewrite Hd.
  - simpl. rewrite Hd', Hd. auto.
Qed.

(** X14.  An image with no deferred source, or an empty one, is never
    upgraded: whatever entries are delivered, however often, its element
    stays exactly as it was, and if it was observed it stays observed. *)
Theorem image_without_source_is_left (p p' : page)
    (batches : list (list entry)) :
  truthy (getAttribute img "data-src" p) = false ->
  deliveries batches p = Some p' ->
  dom p' !! img = dom p !! img
  /\ (img ∈ watched p -> img ∈ watched p').
Proof.
  unfold deliveries. revert p.
  induction batches as [|b bs IH]; intros p Hs Hd.
  - by simplify_eq/=.
  - simpl in Hd. destruct (deliver p b) as [p1|] eqn:Hb;
      [|by rewrite deliveries_None in Hd].
    unfold deliver in Hb. destruct (forallb _ b); [|done]. simplify_eq.
    destruct (image_callback_sourceless b p Hs) as [Hd1 Hw1].
    destruct (IH (image_callback b p)) as [Hd2 Hw2]; [|done|].
    + unfold getAttribute in *. by rewrite Hd1.
    + rewrite Hd2, Hd1. auto.
Qed.

End SourcelessFacts.

(* ===================================================================== *)
(** ** [checkBrowserSupport] and the shims *)
(* ===================================================================== *)

(** X15.  [checkBrowserSupport], in an engine that has [CSS.supports]:
    returns the five answers, logs one line for each feature whose answer is
    no, in the order the features are written, and none when all are there;
    it changes nothing else.  In an engine without [CSS.supports] it throws
    before logging anything. *)
Theorem checkBrowserSupport_reports
    (CSS_supports : (string -> string -> bool) + exn)
    (has_IntersectionObserver : bool) (p : Page.page) :
  let r := Support.checkBrowserSupport CSS_supports has_IntersectionObserver p in
  match CSS_supports with
  | inr e => r = (p, Throw e)
  | inl f =>
      let s :=
        {| Support.flexbox := f "display" "flex";
           Support.grid := f "display" "grid";
           Support.customProperties := f "--test" "test";
           Support.intersectionObserver := has_IntersectionObserver;
           Support.backdropFilter := f "backdrop-filter" "blur(1px)" |} in
      r.2 = Normal s
      /\ Page.dom r.1 = Page.dom p
      /\ Page.requests r.1 = Page.requests p
      /\ Page.console r.1
         = Page.console p
           ++ ((fun fe => ("info", "Browser does not support: " +:+ fe.1))
                 <$> filter (fun fe => fe.2 = false) (Support.entries s))
  end.
Proof.
  destruct CSS_supports as [f|e]; [|done]. cbv zeta.
  unfold Support.checkBrowserSupport, Support.supports, Support.entries,
    Support.report, mbind, M_bind, bind, mret, M_ret, ret, lift.
  simpl.
  destruct (f "display" "flex"), (f "display" "grid"), (f "--test" "test"),
    has_IntersectionObserver, (f "backdrop-filter" "blur(1px)");
    simpl; split_and!; try done; by rewrite ?app_nil_r, <- ?app_assoc.
Qed.

Section ShimFacts.
Import Shims.

(** X16.  The two shims.  They never replace what the engine has: its own
    [matches] and its own [closest] are kept.  A missing [matches] becomes
    the [ms] function, or the [webkit] one when there is no [ms] one.
    Installing them twice is installing them once.  In an engine that has
    none of the three matchers and no [closest], [closest] is the shim and
    every call of it throws: it never returns a node or [null]. *)
Theorem polyfill_keeps_native (E : prototype) :
  (forall f, matches E = Some f -> matches (polyfill E) = Some f)
  /\ (forall c, closest E = Some c -> closest (polyfill E) = Some c)
  /\ (matches E = None ->
      matches (polyfill E)
      = or_else (msMatchesSelector E) (webkitMatchesSelector E))
  /\ (closest E = None -> closest (polyfill E) = Some Shim)
  /\ polyfill (polyfill E) = polyfill E
  /\ (matches E = None -> msMatchesSelector E = None ->
      webkitMatchesSelector E = None -> closest E = None ->
      forall T fuel s el,
        call_closest T (polyfill E) (S fuel) s el = Some (Throw "TypeError")).
Proof.
  unfold polyfill, install_closest, install_matches, call_closest, call_matches.
  destruct E as [[m|] [ms|] [wk|] [c|]]; simpl; split_and!; try done;
    intros; simplify_eq; done.
Qed.

End ShimFacts.

Section ScriptFacts.
Import Script.
Variable querySelectorAll :
  string -> gmap Page.node Page.element -> completion (list Page.node).
Variable has_IntersectionObserver : bool.
Variable px : Z -> string.
Variable setProperty_error : option exn.
Variable documentElement : Page.node.

Lemma run_Wiring CSS_supports r :
  let run' := run querySelectorAll has_IntersectionObserver CSS_supports
                px setProperty_error documentElement in
  (run' Wiring r).2 = Normal tt /\ (run' Wiring r).1.2 = r.2.
Proof.
  cbv zeta. unfold run.
  destruct (ready_callback_returns querySelectorAll has_IntersectionObserver
              px setProperty_error documentElement r.1)
    as (p' & w & ->). done.
Qed.

Lemma checkBrowserSupport_outcome CSS_supports p :
  match CSS_supports with
  | inl _ =>
      exists s,
        (Support.checkBrowserSupport CSS_supports has_IntersectionObserver p).2
        = Normal s
  | inr e =>
      (Support.checkBrowserSupport CSS_supports has_IntersectionObserver p).2
      = Throw e
  end.
Proof.
  destruct CSS_supports as [f|e]; [|done].
  unfold Support.checkBrowserSupport, Support.supports,
    mbind, M_bind, bind, mret, M_ret, ret, lift.
  simpl. by eexists.
Qed.

Lemma run_Probe CSS_supports r :
  let run' := run querySelectorAll has_IntersectionObserver CSS_supports
                px setProperty_error documentElement in
  (run' Probe r).2
  = match CSS_supports with inl _ => Normal tt | inr e => Throw e end
  /\ (run' Probe r).1.2 = r.2.
Proof.
  cbv zeta. unfold run.
  pose proof (checkBrowserSupport_outcome CSS_supports r.1) as H.
  destruct (Support.checkBrowserSupport CSS_supports
              has_IntersectionObserver r.1) as [p c] eqn:Hc.
  simpl in *.
  destruct CSS_supports as [f|e]; [by destruct H as [s ->]|].
  by simplify_eq/=.
Qed.

(** X17.  The script from top to bottom.  On a document still loading it
    runs neither function, ends normally and installs the shims.  On a
    document already parsed it runs both functions at once, in order; if
    the engine has [CSS.supports] it then installs the shims; if not,
    [checkBrowserSupport] throws, the script ends there, and the shims are
    not installed: [Element.prototype] is left as the engine had it. *)
Theorem script_installs_shims_unless_probe_throws
    (CSS_supports : (string -> string -> bool) + exn)
    (d : @Ready.document fn realm) :
  let r := script querySelectorAll has_IntersectionObserver CSS_supports
             px setProperty_error documentElement d in
  let E := (Ready.user d).2 in
  (Ready.readyState d = "loading" -> Ready.contentLoaded d = [] ->
   r.2 = Normal tt
   /\ Ready.ran r.1 = Ready.ran d
   /\ Ready.contentLoaded r.1 = [Wiring; Probe]
   /\ (Ready.user r.1).2 = Shims.polyfill E)
  /\ (Ready.readyState d ≠ "loading" ->
      Ready.ran r.1 = Ready.ran d ++ [Wiring; Probe]
      /\ match CSS_supports with
         | inl _ => r.2 = Normal tt /\ (Ready.user r.1).2 = Shims.polyfill E
         | inr e => r.2 = Throw e /\ (Ready.user r.1).2 = E
         end).
Proof.
  cbv zeta. split.
  - intros Hl Hn. unfold script, mbind, M_bind, bind, lift, Ready.ready.
    rewrite Hl. simpl. unfold Ready.addEventListener. simpl.
    rewrite Hn. simpl. by rewrite Hl.
  - intros Hl. unfold script, mbind, M_bind, bind, lift.
    set (run' := run querySelectorAll has_IntersectionObserver CSS_supports
                   px setProperty_error documentElement).
    assert (forall f d', Ready.readyState d' ≠ "loading" ->
              Ready.ready run' f d' = Ready.call run' f d') as Hready
      by (intros f d' Hd; unfold Ready.ready; by rewrite bool_decide_true).
    rewrite (Hready _ _ Hl).
    destruct (call_fields run' Wiring d) as (Hran1 & Hs1 & _ & Hu1 & Hc1).
    destruct (run_Wiring CSS_supports (Ready.user d)) as [Hw1 Hw2].
    fold run' in Hw1, Hw2. rewrite Hw1 in Hc1.
    destruct (Ready.call run' Wiring d) as [d1 c1]. simpl in *. subst c1.
    rewrite (Hready _ _ ltac:(by rewrite Hs1)).
    destruct (call_fields run' Probe d1) as (Hran2 & Hs2 & _ & Hu2 & Hc2).
    destruct (run_Probe CSS_supports (Ready.user d1)) as [Hp1 Hp2].
    fold run' in Hp1, Hp2. rewrite Hp1 in Hc2.
    destruct (Ready.call run' Probe d1) as [d2 c2]. simpl in *. subst c2.
    destruct CSS_supports as [f|e]; simpl;
      rewrite ?Hu2, ?Hp2, ?Hu1, ?Hw2, Hran2, Hran1, <- app_assoc; done.
Qed.

End ScriptFacts.

(* ===================================================================== *)
(** ** The further properties on the sample page *)
(* ===================================================================== *)



Lemma throttle_throwing_func_never_gated_witness :
  let calls := [(0, tt, "a"); (1, tt, "b"); (2, tt, "c")] in
  let w := Throttle.play SmallHost.thrower 1000 calls (Throttle.throttle 0 []) in
  Throttle.calls_of w = calls
  /\ Throttle.inThrottle (state w) = false
  /\ pending (queue w) = [].
Proof.
  apply (throttle_throwing_func_never_gated SmallHost.thrower 1000 0 []
           [(0, tt, "a"); (1, tt, "b"); (2, tt, "c")]).
  - intros x a s. reflexivity.
  - repeat constructor; simpl; lia.
Defined.

Lemma ready_runs_each_once_witness :
  let r := Ready.readies Samples.run_named ["wire"; "probe"] Samples.loading in
  r.2 = Normal tt
  /\ Ready.ran r.1 = []
  /\ Ready.user r.1 = []
  /\ Ready.ran (Ready.DOMContentLoaded Samples.run_named r.1)
     = ["wire"; "probe"]
  /\ Ready.readyState (Ready.DOMContentLoaded Samples.run_named r.1)
     = "interactive".
Proof.
  apply (ready_runs_each_once Samples.run_named Samples.loading
           ["wire"; "probe"] "wire").
  - reflexivity.
  - simpl. apply NoDup_cons. split; [|apply NoDup_singleton].
    intros H. apply list_elem_of_singleton in H. discriminate.
Defined.

Lemma viewport_height_settles_witness :
  let w := Viewport.play Samples.px None
             [(10, Viewport.Resize 500); (40, Viewport.OrientationChange);
              (60, Viewport.Resize 700)]
             (Viewport.init Samples.px None 0 Samples.window0) in
  let w' := run_until (Viewport.fire Samples.px None) 160 w in
  Viewport.innerHeight (Viewport.win (state w')) = 700
  /\ Viewport.vh (Viewport.win (state w')) = Some "7px"
  /\ pending (queue w') = [].
Proof.
  apply (viewport_height_settles Samples.px 0 Samples.window0
           [(10, Viewport.Resize 500); (40, Viewport.OrientationChange);
            (60, Viewport.Resize 700)] 160).
  vm_compute. discriminate.
Defined.

Lemma toggleMobileMenu_flips_active_witness :
  let toggle := fun p => (Page.toggleMobileMenu SmallHost.querySelectorAll p).1 in
  Page.has_class 3%nat "active" (toggle SmallHost.sample)
  = negb (Page.has_class 3%nat "active" SmallHost.sample).
Proof.
  destruct (toggleMobileMenu_flips_active SmallHost.querySelectorAll
              SmallHost.sample) as [_ H].
  destruct (H 3%nat (SmallHost.el "nav" ["active"] [("id", "mobileMenu")]))
    as [H1 _].
  - vm_compute. reflexivity.
  - vm_compute. reflexivity.
  - exact H1.
Defined.

Lemma escape_closes_and_focuses_witness :
  let p' := Page.handleKeyboardNavigation SmallHost.sample_wiring "Escape"
              SmallHost.sample in
  Page.has_class 3%nat "active" p' = false
  /\ Page.activeElement p' = Some 2%nat.
Proof.
  destruct (escape_closes_and_focuses SmallHost.sample_wiring "Escape"
              SmallHost.sample) as (_ & _ & H).
  destruct (H 3%nat) as (H1 & H2 & _).
  - reflexivity.
  - reflexivity.
  - vm_compute. reflexivity.
  - split; [exact H1|exact H2].
Defined.


Lemma scroll_body_idempotent_and_local_witness :
  let p' := Page.scroll_body SmallHost.sample_wiring
              (Page.scrolled (600 # 1) SmallHost.sample) in
  Page.scroll_body SmallHost.sample_wiring p' = p'
  /\ Page.requests p' = [].
Proof.
  destruct (scroll_body_idempotent_and_local SmallHost.sample_wiring
              (Page.scrolled (600 # 1) SmallHost.sample))
    as (H1 & H2 & _).
  split; [exact H1|exact H2].
Defined.

Lemma ready_callback_observes_lazy_images_witness :
  Page.lazyImages SmallHost.sample_wiring = [7; 8]%nat
  /\ (forall img,
        img ∈ Page.watched SmallHost.sample_ready <-> img ∈ [7; 8]%nat)
  /\ (Page.rootMargin <$> Page.imageObserver SmallHost.sample_ready)
     = Some "50px"
  /\ Page.dom SmallHost.sample_ready
     = alter (Page.set_style "--vh" "8px") SmallHost.root
         (Page.dom SmallHost.sample).
Proof.
  apply (ready_callback_observes_lazy_images SmallHost.querySelectorAll
           SmallHost.px None SmallHost.root
           SmallHost.sample SmallHost.sample_ready SmallHost.sample_wiring).
  vm_compute. reflexivity.
Defined.

Lemma without_observer_nothing_loads_witness :
  Page.lazyImages Samples.sample_wiring_unobserved = []
  /\ Page.imageObserver Samples.sample_unobserved = None
  /\ Page.dom Samples.sample_unobserved
     = alter (Page.set_style "--vh" "8px") SmallHost.root
         (Page.dom SmallHost.sample)
  /\ forall batches p'',
       Page.deliveries batches Samples.sample_unobserved = Some p'' ->
       p'' = Samples.sample_unobserved.
Proof.
  destruct (without_observer_nothing_loads SmallHost.querySelectorAll
              SmallHost.px None SmallHost.root
              SmallHost.sample Samples.sample_unobserved
              Samples.sample_wiring_unobserved) as (H1 & H2 & H3 & H4).
  - vm_compute. reflexivity.
  - split_and!; [exact H1|exact H2|exact H3|exact (H4 eq_refl)].
Defined.

Lemma image_without_source_is_left_witness :
  let batches :=
    [ [ {| Page.isIntersecting := true; Page.target := 8%nat |};
        {| Page.isIntersecting := true; Page.target := 7%nat |} ];
      [ {| Page.isIntersecting := true; Page.target := 8%nat |} ] ] in
  exists p', Page.deliveries batches SmallHost.sample_ready = Some p'
    /\ Page.dom p' !! 8%nat = Page.dom SmallHost.sample_ready !! 8%nat
    /\ 8%nat ∈ Page.watched p'.
Proof.
  intros batches. eexists. split; [vm_compute; reflexivity|].
  match goal with
  | |- Page.dom ?p' !! _ = _ /\ _ =>
      destruct (image_without_source_is_left 8%nat SmallHost.sample_ready p'
                  batches) as [H1 H2]
  end.
  - vm_compute. reflexivity.
  - vm_compute. reflexivity.
  - split; [exact H1|]. apply H2. apply list_elem_of_In. vm_compute. tauto.
Defined.

Lemma polyfill_keeps_native_witness :
  Shims.matches (Shims.polyfill Samples.ms_engine)
  = Some SmallHost.sample_matches
  /\ Shims.closest (Shims.polyfill Samples.ms_engine) = Some Shims.Shim
  /\ Shims.call_closest SmallHost.sample_tree
       (Shims.polyfill Samples.ms_engine) 5 "nav" 4%nat
     = Some (Normal (Some 3%nat))
  /\ Shims.call_closest SmallHost.sample_tree
       (Shims.polyfill Samples.bare_engine) 5 "nav" 4%nat
     = Some (Throw "TypeError").
Proof.
  destruct (polyfill_keeps_native Samples.ms_engine) as (_ & _ & H3 & H4 & _).
  destruct (polyfill_keeps_native Samples.bare_engine)
    as (_ & _ & _ & _ & _ & H6).
  split_and!.
  - exact (H3 eq_refl).
  - exact (H4 eq_refl).
  - vm_compute. reflexivity.
  - exact (H6 eq_refl eq_refl eq_refl eq_refl SmallHost.sample_tree 4%nat
             "nav" 4%nat).
Defined.

Lemma script_installs_shims_unless_probe_throws_witness :
  let r := Script.script SmallHost.querySelectorAll true (inr "TypeError")
             SmallHost.px None SmallHost.root Samples.parsed in
  Ready.ran r.1 = [Script.Wiring; Script.Probe]
  /\ r.2 = Throw "TypeError"
  /\ (Ready.user r.1).2 = Samples.ms_engine.
Proof.
  destruct (script_installs_shims_unless_probe_throws
              SmallHost.querySelectorAll true SmallHost.px None SmallHost.root
              (inr "TypeError") Samples.parsed)
    as [_ H].
  destruct H as (H1 & H2 & H3).
  - vm_compute. discriminate.
  - split_and!; [exact H1|exact H2|exact H3].
Defined.
